(** * Keyword counter: a shallow embedding of [src/main.py]

    The program reads a Clausewitz-style script line by line, strips
    comments, quoted strings and the structural operators, counts the
    remaining word-like tokens in a [Counter] and writes them, sorted, to a
    CSV report.

    Python values are modelled as follows.
    - A [str] is the list of its Unicode code points ([pystr]).
    - An [int] is a [Z]; sizes in bytes are [N].
    - The [Counter] is a finite map from tokens to counts.
    - [print] and the CSV writer append to an explicit output record.
    - The file system is an explicit record: what [os.path.exists],
      [os.path.getsize], [open] and the iteration over the file deliver.
    Library functions the program calls ([str.split], [re], [float], true
    division of integers) are written out after CPython 3.11. *)

From Stdlib Require Import ZArith NArith Lia Ascii String Sorted Permutation.
From Stdlib Require SpecFloat.
From stdpp Require Import base list gmap.

Local Open Scope N_scope.

(** ** Strings as code points *)

Definition pystr : Type := list N.

Definition ord (a : ascii) : N := N_of_ascii a.

(** [py s] is the Python string with the same (Latin-1) characters as [s]. *)
Fixpoint py (s : string) : pystr :=
  match s with
  | EmptyString => []
  | String a r => ord a :: py r
  end.

Definition QUOTE : N := 34.   (* the double quote *)
Definition HASH : N := 35.
Definition SPACE : N := 32.
Definition LF : N := 10.
Definition UNDERSCORE : N := 95.

(** ** The Unicode character database (version 14.0.0, CPython 3.11) *)

Module UCD.

Fixpoint in_ranges (c : N) (rs : list (N * N)) : bool :=
  match rs with
  | [] => false
  | (lo, hi) :: rest => ((lo <=? c) && (c <=? hi)) || in_ranges c rest
  end.

(** Code points with [str.isspace()]: bidirectional class WS, B or S, or
    general category Zs. *)
Definition space_ranges : list (N * N) :=
  [ (0x9, 0xD); (0x1C, 0x20); (0x85, 0x85); (0xA0, 0xA0); (0x1680, 0x1680);
    (0x2000, 0x200A); (0x2028, 0x2029); (0x202F, 0x202F); (0x205F, 0x205F);
    (0x3000, 0x3000) ].

(** Code points with [str.isalnum()]: alphabetic, decimal, digit or numeric. *)
Definition alnum_ranges : list (N * N) :=
  [
    (0x30, 0x39); (0x41, 0x5A); (0x61, 0x7A); (0xAA, 0xAA); (0xB2, 0xB3);
    (0xB5, 0xB5); (0xB9, 0xBA); (0xBC, 0xBE); (0xC0, 0xD6); (0xD8, 0xF6);
    (0xF8, 0x2C1); (0x2C6, 0x2D1); (0x2E0, 0x2E4); (0x2EC, 0x2EC);
    (0x2EE, 0x2EE); (0x370, 0x374); (0x376, 0x377); (0x37A, 0x37D);
    (0x37F, 0x37F); (0x386, 0x386); (0x388, 0x38A); (0x38C, 0x38C);
    (0x38E, 0x3A1); (0x3A3, 0x3F5); (0x3F7, 0x481); (0x48A, 0x52F);
    (0x531, 0x556); (0x559, 0x559); (0x560, 0x588); (0x5D0, 0x5EA);
    (0x5EF, 0x5F2); (0x620, 0x64A); (0x660, 0x669); (0x66E, 0x66F);
    (0x671, 0x6D3); (0x6D5, 0x6D5); (0x6E5, 0x6E6); (0x6EE, 0x6FC);
    (0x6FF, 0x6FF); (0x710, 0x710); (0x712, 0x72F); (0x74D, 0x7A5);
    (0x7B1, 0x7B1); (0x7C0, 0x7EA); (0x7F4, 0x7F5); (0x7FA, 0x7FA);
    (0x800, 0x815); (0x81A, 0x81A); (0x824, 0x824); (0x828, 0x828);
    (0x840, 0x858); (0x860, 0x86A); (0x870, 0x887); (0x889, 0x88E);
    (0x8A0, 0x8C9); (0x904, 0x939); (0x93D, 0x93D); (0x950, 0x950);
    (0x958, 0x961); (0x966, 0x96F); (0x971, 0x980); (0x985, 0x98C);
    (0x98F, 0x990); (0x993, 0x9A8); (0x9AA, 0x9B0); (0x9B2, 0x9B2);
    (0x9B6, 0x9B9); (0x9BD, 0x9BD); (0x9CE, 0x9CE); (0x9DC, 0x9DD);
    (0x9DF, 0x9E1); (0x9E6, 0x9F1); (0x9F4, 0x9F9); (0x9FC, 0x9FC);
    (0xA05, 0xA0A); (0xA0F, 0xA10); (0xA13, 0xA28); (0xA2A, 0xA30);
    (0xA32, 0xA33); (0xA35, 0xA36); (0xA38, 0xA39); (0xA59, 0xA5C);
    (0xA5E, 0xA5E); (0xA66, 0xA6F); (0xA72, 0xA74); (0xA85, 0xA8D);
    (0xA8F, 0xA91); (0xA93, 0xAA8); (0xAAA, 0xAB0); (0xAB2, 0xAB3);
    (0xAB5, 0xAB9); (0xABD, 0xABD); (0xAD0, 0xAD0); (0xAE0, 0xAE1);
    (0xAE6, 0xAEF); (0xAF9, 0xAF9); (0xB05, 0xB0C); (0xB0F, 0xB10);
    (0xB13, 0xB28); (0xB2A, 0xB30); (0xB32, 0xB33); (0xB35, 0xB39);
    (0xB3D, 0xB3D); (0xB5C, 0xB5D); (0xB5F, 0xB61); (0xB66, 0xB6F);
    (0xB71, 0xB77); (0xB83, 0xB83); (0xB85, 0xB8A); (0xB8E, 0xB90);
    (0xB92, 0xB95); (0xB99, 0xB9A); (0xB9C, 0xB9C); (0xB9E, 0xB9F);
    (0xBA3, 0xBA4); (0xBA8, 0xBAA); (0xBAE, 0xBB9); (0xBD0, 0xBD0);
    (0xBE6, 0xBF2); (0xC05, 0xC0C); (0xC0E, 0xC10); (0xC12, 0xC28);
    (0xC2A, 0xC39); (0xC3D, 0xC3D); (0xC58, 0xC5A); (0xC5D, 0xC5D);
    (0xC60, 0xC61); (0xC66, 0xC6F); (0xC78, 0xC7E); (0xC80, 0xC80);
    (0xC85, 0xC8C); (0xC8E, 0xC90); (0xC92, 0xCA8); (0xCAA, 0xCB3);
    (0xCB5, 0xCB9); (0xCBD, 0xCBD); (0xCDD, 0xCDE); (0xCE0, 0xCE1);
    (0xCE6, 0xCEF); (0xCF1, 0xCF2); (0xD04, 0xD0C); (0xD0E, 0xD10);
    (0xD12, 0xD3A); (0xD3D, 0xD3D); (0xD4E, 0xD4E); (0xD54, 0xD56);
    (0xD58, 0xD61); (0xD66, 0xD78); (0xD7A, 0xD7F); (0xD85, 0xD96);
    (0xD9A, 0xDB1); (0xDB3, 0xDBB); (0xDBD, 0xDBD); (0xDC0, 0xDC6);
    (0xDE6, 0xDEF); (0xE01, 0xE30); (0xE32, 0xE33); (0xE40, 0xE46);
    (0xE50, 0xE59); (0xE81, 0xE82); (0xE84, 0xE84); (0xE86, 0xE8A);
    (0xE8C, 0xEA3); (0xEA5, 0xEA5); (0xEA7, 0xEB0); (0xEB2, 0xEB3);
    (0xEBD, 0xEBD); (0xEC0, 0xEC4); (0xEC6, 0xEC6); (0xED0, 0xED9);
    (0xEDC, 0xEDF); (0xF00, 0xF00); (0xF20, 0xF33); (0xF40, 0xF47);
    (0xF49, 0xF6C); (0xF88, 0xF8C); (0x1000, 0x102A); (0x103F, 0x1049);
    (0x1050, 0x1055); (0x105A, 0x105D); (0x1061, 0x1061); (0x1065, 0x1066);
    (0x106E, 0x1070); (0x1075, 0x1081); (0x108E, 0x108E); (0x1090, 0x1099);
    (0x10A0, 0x10C5); (0x10C7, 0x10C7); (0x10CD, 0x10CD); (0x10D0, 0x10FA);
    (0x10FC, 0x1248); (0x124A, 0x124D); (0x1250, 0x1256); (0x1258, 0x1258);
    (0x125A, 0x125D); (0x1260, 0x1288); (0x128A, 0x128D); (0x1290, 0x12B0);
    (0x12B2, 0x12B5); (0x12B8, 0x12BE); (0x12C0, 0x12C0); (0x12C2, 0x12C5);
    (0x12C8, 0x12D6); (0x12D8, 0x1310); (0x1312, 0x1315); (0x1318, 0x135A);
    (0x1369, 0x137C); (0x1380, 0x138F); (0x13A0, 0x13F5); (0x13F8, 0x13FD);
    (0x1401, 0x166C); (0x166F, 0x167F); (0x1681, 0x169A); (0x16A0, 0x16EA);
    (0x16EE, 0x16F8); (0x1700, 0x1711); (0x171F, 0x1731); (0x1740, 0x1751);
    (0x1760, 0x176C); (0x176E, 0x1770); (0x1780, 0x17B3); (0x17D7, 0x17D7);
    (0x17DC, 0x17DC); (0x17E0, 0x17E9); (0x17F0, 0x17F9); (0x1810, 0x1819);
    (0x1820, 0x1878); (0x1880, 0x1884); (0x1887, 0x18A8); (0x18AA, 0x18AA);
    (0x18B0, 0x18F5); (0x1900, 0x191E); (0x1946, 0x196D); (0x1970, 0x1974);
    (0x1980, 0x19AB); (0x19B0, 0x19C9); (0x19D0, 0x19DA); (0x1A00, 0x1A16);
    (0x1A20, 0x1A54); (0x1A80, 0x1A89); (0x1A90, 0x1A99); (0x1AA7, 0x1AA7);
    (0x1B05, 0x1B33); (0x1B45, 0x1B4C); (0x1B50, 0x1B59); (0x1B83, 0x1BA0);
    (0x1BAE, 0x1BE5); (0x1C00, 0x1C23); (0x1C40, 0x1C49); (0x1C4D, 0x1C7D);
    (0x1C80, 0x1C88); (0x1C90, 0x1CBA); (0x1CBD, 0x1CBF); (0x1CE9, 0x1CEC);
    (0x1CEE, 0x1CF3); (0x1CF5, 0x1CF6); (0x1CFA, 0x1CFA); (0x1D00, 0x1DBF);
    (0x1E00, 0x1F15); (0x1F18, 0x1F1D); (0x1F20, 0x1F45); (0x1F48, 0x1F4D);
    (0x1F50, 0x1F57); (0x1F59, 0x1F59); (0x1F5B, 0x1F5B); (0x1F5D, 0x1F5D);
    (0x1F5F, 0x1F7D); (0x1F80, 0x1FB4); (0x1FB6, 0x1FBC); (0x1FBE, 0x1FBE);
    (0x1FC2, 0x1FC4); (0x1FC6, 0x1FCC); (0x1FD0, 0x1FD3); (0x1FD6, 0x1FDB);
    (0x1FE0, 0x1FEC); (0x1FF2, 0x1FF4); (0x1FF6, 0x1FFC); (0x2070, 0x2071);
    (0x2074, 0x2079); (0x207F, 0x2089); (0x2090, 0x209C); (0x2102, 0x2102);
    (0x2107, 0x2107); (0x210A, 0x2113); (0x2115, 0x2115); (0x2119, 0x211D);
    (0x2124, 0x2124); (0x2126, 0x2126); (0x2128, 0x2128); (0x212A, 0x212D);
    (0x212F, 0x2139); (0x213C, 0x213F); (0x2145, 0x2149); (0x214E, 0x214E);
    (0x2150, 0x2189); (0x2460, 0x249B); (0x24EA, 0x24FF); (0x2776, 0x2793);
    (0x2C00, 0x2CE4); (0x2CEB, 0x2CEE); (0x2CF2, 0x2CF3); (0x2CFD, 0x2CFD);
    (0x2D00, 0x2D25); (0x2D27, 0x2D27); (0x2D2D, 0x2D2D); (0x2D30, 0x2D67);
    (0x2D6F, 0x2D6F); (0x2D80, 0x2D96); (0x2DA0, 0x2DA6); (0x2DA8, 0x2DAE);
    (0x2DB0, 0x2DB6); (0x2DB8, 0x2DBE); (0x2DC0, 0x2DC6); (0x2DC8, 0x2DCE);
    (0x2DD0, 0x2DD6); (0x2DD8, 0x2DDE); (0x2E2F, 0x2E2F); (0x3005, 0x3007);
    (0x3021, 0x3029); (0x3031, 0x3035); (0x3038, 0x303C); (0x3041, 0x3096);
    (0x309D, 0x309F); (0x30A1, 0x30FA); (0x30FC, 0x30FF); (0x3105, 0x312F);
    (0x3131, 0x318E); (0x3192, 0x3195); (0x31A0, 0x31BF); (0x31F0, 0x31FF);
    (0x3220, 0x3229); (0x3248, 0x324F); (0x3251, 0x325F); (0x3280, 0x3289);
    (0x32B1, 0x32BF); (0x3400, 0x4DBF); (0x4E00, 0xA48C); (0xA4D0, 0xA4FD);
    (0xA500, 0xA60C); (0xA610, 0xA62B); (0xA640, 0xA66E); (0xA67F, 0xA69D);
    (0xA6A0, 0xA6EF); (0xA717, 0xA71F); (0xA722, 0xA788); (0xA78B, 0xA7CA);
    (0xA7D0, 0xA7D1); (0xA7D3, 0xA7D3); (0xA7D5, 0xA7D9); (0xA7F2, 0xA801);
    (0xA803, 0xA805); (0xA807, 0xA80A); (0xA80C, 0xA822); (0xA830, 0xA835);
    (0xA840, 0xA873); (0xA882, 0xA8B3); (0xA8D0, 0xA8D9); (0xA8F2, 0xA8F7);
    (0xA8FB, 0xA8FB); (0xA8FD, 0xA8FE); (0xA900, 0xA925); (0xA930, 0xA946);
    (0xA960, 0xA97C); (0xA984, 0xA9B2); (0xA9CF, 0xA9D9); (0xA9E0, 0xA9E4);
    (0xA9E6, 0xA9FE); (0xAA00, 0xAA28); (0xAA40, 0xAA42); (0xAA44, 0xAA4B);
    (0xAA50, 0xAA59); (0xAA60, 0xAA76); (0xAA7A, 0xAA7A); (0xAA7E, 0xAAAF);
    (0xAAB1, 0xAAB1); (0xAAB5, 0xAAB6); (0xAAB9, 0xAABD); (0xAAC0, 0xAAC0);
    (0xAAC2, 0xAAC2); (0xAADB, 0xAADD); (0xAAE0, 0xAAEA); (0xAAF2, 0xAAF4);
    (0xAB01, 0xAB06); (0xAB09, 0xAB0E); (0xAB11, 0xAB16); (0xAB20, 0xAB26);
    (0xAB28, 0xAB2E); (0xAB30, 0xAB5A); (0xAB5C, 0xAB69); (0xAB70, 0xABE2);
    (0xABF0, 0xABF9); (0xAC00, 0xD7A3); (0xD7B0, 0xD7C6); (0xD7CB, 0xD7FB);
    (0xF900, 0xFA6D); (0xFA70, 0xFAD9); (0xFB00, 0xFB06); (0xFB13, 0xFB17);
    (0xFB1D, 0xFB1D); (0xFB1F, 0xFB28); (0xFB2A, 0xFB36); (0xFB38, 0xFB3C);
    (0xFB3E, 0xFB3E); (0xFB40, 0xFB41); (0xFB43, 0xFB44); (0xFB46, 0xFBB1);
    (0xFBD3, 0xFD3D); (0xFD50, 0xFD8F); (0xFD92, 0xFDC7); (0xFDF0, 0xFDFB);
    (0xFE70, 0xFE74); (0xFE76, 0xFEFC); (0xFF10, 0xFF19); (0xFF21, 0xFF3A);
    (0xFF41, 0xFF5A); (0xFF66, 0xFFBE); (0xFFC2, 0xFFC7); (0xFFCA, 0xFFCF);
    (0xFFD2, 0xFFD7); (0xFFDA, 0xFFDC); (0x10000, 0x1000B);
    (0x1000D, 0x10026); (0x10028, 0x1003A); (0x1003C, 0x1003D);
    (0x1003F, 0x1004D); (0x10050, 0x1005D); (0x10080, 0x100FA);
    (0x10107, 0x10133); (0x10140, 0x10178); (0x1018A, 0x1018B);
    (0x10280, 0x1029C); (0x102A0, 0x102D0); (0x102E1, 0x102FB);
    (0x10300, 0x10323); (0x1032D, 0x1034A); (0x10350, 0x10375);
    (0x10380, 0x1039D); (0x103A0, 0x103C3); (0x103C8, 0x103CF);
    (0x103D1, 0x103D5); (0x10400, 0x1049D); (0x104A0, 0x104A9);
    (0x104B0, 0x104D3); (0x104D8, 0x104FB); (0x10500, 0x10527);
    (0x10530, 0x10563); (0x10570, 0x1057A); (0x1057C, 0x1058A);
    (0x1058C, 0x10592); (0x10594, 0x10595); (0x10597, 0x105A1);
    (0x105A3, 0x105B1); (0x105B3, 0x105B9); (0x105BB, 0x105BC);
    (0x10600, 0x10736); (0x10740, 0x10755); (0x10760, 0x10767);
    (0x10780, 0x10785); (0x10787, 0x107B0); (0x107B2, 0x107BA);
    (0x10800, 0x10805); (0x10808, 0x10808); (0x1080A, 0x10835);
    (0x10837, 0x10838); (0x1083C, 0x1083C); (0x1083F, 0x10855);
    (0x10858, 0x10876); (0x10879, 0x1089E); (0x108A7, 0x108AF);
    (0x108E0, 0x108F2); (0x108F4, 0x108F5); (0x108FB, 0x1091B);
    (0x10920, 0x10939); (0x10980, 0x109B7); (0x109BC, 0x109CF);
    (0x109D2, 0x10A00); (0x10A10, 0x10A13); (0x10A15, 0x10A17);
    (0x10A19, 0x10A35); (0x10A40, 0x10A48); (0x10A60, 0x10A7E);
    (0x10A80, 0x10A9F); (0x10AC0, 0x10AC7); (0x10AC9, 0x10AE4);
    (0x10AEB, 0x10AEF); (0x10B00, 0x10B35); (0x10B40, 0x10B55);
    (0x10B58, 0x10B72); (0x10B78, 0x10B91); (0x10BA9, 0x10BAF);
    (0x10C00, 0x10C48); (0x10C80, 0x10CB2); (0x10CC0, 0x10CF2);
    (0x10CFA, 0x10D23); (0x10D30, 0x10D39); (0x10E60, 0x10E7E);
    (0x10E80, 0x10EA9); (0x10EB0, 0x10EB1); (0x10F00, 0x10F27);
    (0x10F30, 0x10F45); (0x10F51, 0x10F54); (0x10F70, 0x10F81);
    (0x10FB0, 0x10FCB); (0x10FE0, 0x10FF6); (0x11003, 0x11037);
    (0x11052, 0x1106F); (0x11071, 0x11072); (0x11075, 0x11075);
    (0x11083, 0x110AF); (0x110D0, 0x110E8); (0x110F0, 0x110F9);
    (0x11103, 0x11126); (0x11136, 0x1113F); (0x11144, 0x11144);
    (0x11147, 0x11147); (0x11150, 0x11172); (0x11176, 0x11176);
    (0x11183, 0x111B2); (0x111C1, 0x111C4); (0x111D0, 0x111DA);
    (0x111DC, 0x111DC); (0x111E1, 0x111F4); (0x11200, 0x11211);
    (0x11213, 0x1122B); (0x11280, 0x11286); (0x11288, 0x11288);
    (0x1128A, 0x1128D); (0x1128F, 0x1129D); (0x1129F, 0x112A8);
    (0x112B0, 0x112DE); (0x112F0, 0x112F9); (0x11305, 0x1130C);
    (0x1130F, 0x11310); (0x11313, 0x11328); (0x1132A, 0x11330);
    (0x11332, 0x11333); (0x11335, 0x11339); (0x1133D, 0x1133D);
    (0x11350, 0x11350); (0x1135D, 0x11361); (0x11400, 0x11434);
    (0x11447, 0x1144A); (0x11450, 0x11459); (0x1145F, 0x11461);
    (0x11480, 0x114AF); (0x114C4, 0x114C5); (0x114C7, 0x114C7);
    (0x114D0, 0x114D9); (0x11580, 0x115AE); (0x115D8, 0x115DB);
    (0x11600, 0x1162F); (0x11644, 0x11644); (0x11650, 0x11659);
    (0x11680, 0x116AA); (0x116B8, 0x116B8); (0x116C0, 0x116C9);
    (0x11700, 0x1171A); (0x11730, 0x1173B); (0x11740, 0x11746);
    (0x11800, 0x1182B); (0x118A0, 0x118F2); (0x118FF, 0x11906);
    (0x11909, 0x11909); (0x1190C, 0x11913); (0x11915, 0x11916);
    (0x11918, 0x1192F); (0x1193F, 0x1193F); (0x11941, 0x11941);
    (0x11950, 0x11959); (0x119A0, 0x119A7); (0x119AA, 0x119D0);
    (0x119E1, 0x119E1); (0x119E3, 0x119E3); (0x11A00, 0x11A00);
    (0x11A0B, 0x11A32); (0x11A3A, 0x11A3A); (0x11A50, 0x11A50);
    (0x11A5C, 0x11A89); (0x11A9D, 0x11A9D); (0x11AB0, 0x11AF8);
    (0x11C00, 0x11C08); (0x11C0A, 0x11C2E); (0x11C40, 0x11C40);
    (0x11C50, 0x11C6C); (0x11C72, 0x11C8F); (0x11D00, 0x11D06);
    (0x11D08, 0x11D09); (0x11D0B, 0x11D30); (0x11D46, 0x11D46);
    (0x11D50, 0x11D59); (0x11D60, 0x11D65); (0x11D67, 0x11D68);
    (0x11D6A, 0x11D89); (0x11D98, 0x11D98); (0x11DA0, 0x11DA9);
    (0x11EE0, 0x11EF2); (0x11FB0, 0x11FB0); (0x11FC0, 0x11FD4);
    (0x12000, 0x12399); (0x12400, 0x1246E); (0x12480, 0x12543);
    (0x12F90, 0x12FF0); (0x13000, 0x1342E); (0x14400, 0x14646);
    (0x16800, 0x16A38); (0x16A40, 0x16A5E); (0x16A60, 0x16A69);
    (0x16A70, 0x16ABE); (0x16AC0, 0x16AC9); (0x16AD0, 0x16AED);
    (0x16B00, 0x16B2F); (0x16B40, 0x16B43); (0x16B50, 0x16B59);
    (0x16B5B, 0x16B61); (0x16B63, 0x16B77); (0x16B7D, 0x16B8F);
    (0x16E40, 0x16E96); (0x16F00, 0x16F4A); (0x16F50, 0x16F50);
    (0x16F93, 0x16F9F); (0x16FE0, 0x16FE1); (0x16FE3, 0x16FE3);
    (0x17000, 0x187F7); (0x18800, 0x18CD5); (0x18D00, 0x18D08);
    (0x1AFF0, 0x1AFF3); (0x1AFF5, 0x1AFFB); (0x1AFFD, 0x1AFFE);
    (0x1B000, 0x1B122); (0x1B150, 0x1B152); (0x1B164, 0x1B167);
    (0x1B170, 0x1B2FB); (0x1BC00, 0x1BC6A); (0x1BC70, 0x1BC7C);
    (0x1BC80, 0x1BC88); (0x1BC90, 0x1BC99); (0x1D2E0, 0x1D2F3);
    (0x1D360, 0x1D378); (0x1D400, 0x1D454); (0x1D456, 0x1D49C);
    (0x1D49E, 0x1D49F); (0x1D4A2, 0x1D4A2); (0x1D4A5, 0x1D4A6);
    (0x1D4A9, 0x1D4AC); (0x1D4AE, 0x1D4B9); (0x1D4BB, 0x1D4BB);
    (0x1D4BD, 0x1D4C3); (0x1D4C5, 0x1D505); (0x1D507, 0x1D50A);
    (0x1D50D, 0x1D514); (0x1D516, 0x1D51C); (0x1D51E, 0x1D539);
    (0x1D53B, 0x1D53E); (0x1D540, 0x1D544); (0x1D546, 0x1D546);
    (0x1D54A, 0x1D550); (0x1D552, 0x1D6A5); (0x1D6A8, 0x1D6C0);
    (0x1D6C2, 0x1D6DA); (0x1D6DC, 0x1D6FA); (0x1D6FC, 0x1D714);
    (0x1D716, 0x1D734); (0x1D736, 0x1D74E); (0x1D750, 0x1D76E);
    (0x1D770, 0x1D788); (0x1D78A, 0x1D7A8); (0x1D7AA, 0x1D7C2);
    (0x1D7C4, 0x1D7CB); (0x1D7CE, 0x1D7FF); (0x1DF00, 0x1DF1E);
    (0x1E100, 0x1E12C); (0x1E137, 0x1E13D); (0x1E140, 0x1E149);
    (0x1E14E, 0x1E14E); (0x1E290, 0x1E2AD); (0x1E2C0, 0x1E2EB);
    (0x1E2F0, 0x1E2F9); (0x1E7E0, 0x1E7E6); (0x1E7E8, 0x1E7EB);
    (0x1E7ED, 0x1E7EE); (0x1E7F0, 0x1E7FE); (0x1E800, 0x1E8C4);
    (0x1E8C7, 0x1E8CF); (0x1E900, 0x1E943); (0x1E94B, 0x1E94B);
    (0x1E950, 0x1E959); (0x1EC71, 0x1ECAB); (0x1ECAD, 0x1ECAF);
    (0x1ECB1, 0x1ECB4); (0x1ED01, 0x1ED2D); (0x1ED2F, 0x1ED3D);
    (0x1EE00, 0x1EE03); (0x1EE05, 0x1EE1F); (0x1EE21, 0x1EE22);
    (0x1EE24, 0x1EE24); (0x1EE27, 0x1EE27); (0x1EE29, 0x1EE32);
    (0x1EE34, 0x1EE37); (0x1EE39, 0x1EE39); (0x1EE3B, 0x1EE3B);
    (0x1EE42, 0x1EE42); (0x1EE47, 0x1EE47); (0x1EE49, 0x1EE49);
    (0x1EE4B, 0x1EE4B); (0x1EE4D, 0x1EE4F); (0x1EE51, 0x1EE52);
    (0x1EE54, 0x1EE54); (0x1EE57, 0x1EE57); (0x1EE59, 0x1EE59);
    (0x1EE5B, 0x1EE5B); (0x1EE5D, 0x1EE5D); (0x1EE5F, 0x1EE5F);
    (0x1EE61, 0x1EE62); (0x1EE64, 0x1EE64); (0x1EE67, 0x1EE6A);
    (0x1EE6C, 0x1EE72); (0x1EE74, 0x1EE77); (0x1EE79, 0x1EE7C);
    (0x1EE7E, 0x1EE7E); (0x1EE80, 0x1EE89); (0x1EE8B, 0x1EE9B);
    (0x1EEA1, 0x1EEA3); (0x1EEA5, 0x1EEA9); (0x1EEAB, 0x1EEBB);
    (0x1F100, 0x1F10C); (0x1FBF0, 0x1FBF9); (0x20000, 0x2A6DF);
    (0x2A700, 0x2B738); (0x2B740, 0x2B81D); (0x2B820, 0x2CEA1);
    (0x2CEB0, 0x2EBE0); (0x2F800, 0x2FA1D); (0x30000, 0x3134A)
  ].

(** The code point of the digit zero of every run of ten decimal digits
    (general category Nd); the digit of value [d] is at offset [d]. *)
Definition decimal_zeros : list N :=
  [
    0x30; 0x660; 0x6F0; 0x7C0; 0x966; 0x9E6; 0xA66; 0xAE6; 0xB66; 0xBE6;
    0xC66; 0xCE6; 0xD66; 0xDE6; 0xE50; 0xED0; 0xF20; 0x1040; 0x1090; 0x17E0;
    0x1810; 0x1946; 0x19D0; 0x1A80; 0x1A90; 0x1B50; 0x1BB0; 0x1C40; 0x1C50;
    0xA620; 0xA8D0; 0xA900; 0xA9D0; 0xA9F0; 0xAA50; 0xABF0; 0xFF10; 0x104A0;
    0x10D30; 0x11066; 0x110F0; 0x11136; 0x111D0; 0x112F0; 0x11450; 0x114D0;
    0x11650; 0x116C0; 0x11730; 0x118E0; 0x11950; 0x11C50; 0x11D50; 0x11DA0;
    0x16A60; 0x16AC0; 0x16B50; 0x1D7CE; 0x1D7D8; 0x1D7E2; 0x1D7EC; 0x1D7F6;
    0x1E140; 0x1E2F0; 0x1E950; 0x1FBF0
  ].

Fixpoint decimal_in (c : N) (zs : list N) : option N :=
  match zs with
  | [] => None
  | z :: rest => if (z <=? c) && (c <? z + 10) then Some (c - z)
                 else decimal_in c rest
  end.

End UCD.

Definition Py_UNICODE_ISSPACE (c : N) : bool := UCD.in_ranges c UCD.space_ranges.
Definition Py_UNICODE_ISALNUM (c : N) : bool := UCD.in_ranges c UCD.alnum_ranges.
Definition Py_UNICODE_TODECIMAL (c : N) : option N := UCD.decimal_in c UCD.decimal_zeros.

(** The C locale classes CPython uses on byte strings. *)
Definition Py_ISSPACE (c : N) : bool := ((9 <=? c) && (c <=? 13)) || (c =? 32).
Definition Py_ISDIGIT (c : N) : bool := (48 <=? c) && (c <=? 57).
Definition Py_TOLOWER (c : N) : N := if (65 <=? c) && (c <=? 90) then c + 32 else c.

(** ** [str] methods used on a line *)

(** [line.split('#', 1)[0]]: the text before the first [#], the whole line
    when it has none. *)
Fixpoint split_hash_0 (line : pystr) : pystr :=
  match line with
  | [] => []
  | c :: rest => if c =? HASH then [] else c :: split_hash_0 rest
  end.

(** [quoted_string_pattern.sub(' ', line)], the pattern being a double
    quote, any run of other characters, a double quote. The scan goes left
    to right; [open] is [None] outside a quote and holds the
    characters read since the opening quote (latest first) inside one. A
    closing quote turns the whole match into one space; an opening quote
    that is never closed matches nothing and stays with what follows it. *)
Fixpoint quoted_sub_scan (open : option pystr) (s : pystr) : pystr :=
  match s, open with
  | [], None => []
  | [], Some buf => QUOTE :: rev buf
  | c :: rest, None =>
      if c =? QUOTE then quoted_sub_scan (Some []) rest
      else c :: quoted_sub_scan None rest
  | c :: rest, Some buf =>
      if c =? QUOTE then SPACE :: quoted_sub_scan None rest
      else quoted_sub_scan (Some (c :: buf)) rest
  end.

Definition quoted_string_pattern_sub (line : pystr) : pystr :=
  quoted_sub_scan None line.

(** [s.replace(old, new)] for one-character [old] and [new]. *)
Definition str_replace (old new : N) (s : pystr) : pystr :=
  map (fun c => if c =? old then new else c) s.

(** [s.split()]: the maximal runs of characters that are not white space.
    [cur] is the run being read, latest character first. *)
Definition flush (cur : pystr) (acc : list pystr) : list pystr :=
  match cur with
  | [] => acc
  | _ :: _ => rev cur :: acc
  end.

Fixpoint str_split_scan (cur : pystr) (s : pystr) : list pystr :=
  match s with
  | [] => flush cur []
  | c :: rest =>
      if Py_UNICODE_ISSPACE c then flush cur (str_split_scan [] rest)
      else str_split_scan (c :: cur) rest
  end.

Definition str_split (s : pystr) : list pystr := str_split_scan [] s.

(** [word_pattern.fullmatch(token)] for the pattern [\w+] on a [str]: the
    whole token is a non-empty run of word characters, and a word
    character is an alphanumeric code point or the underscore. *)
Definition is_word_char (c : N) : bool := Py_UNICODE_ISALNUM c || (c =? UNDERSCORE).

Definition word_pattern_fullmatch (token : pystr) : bool :=
  match token with
  | [] => false
  | _ :: _ => forallb is_word_char token
  end.

(** ** [float(s)] and [is_number]

    [float] on a [str] follows CPython's [PyFloat_FromString]: decimal
    digits and white space outside ASCII are mapped to ASCII, white space
    is stripped at both ends, single underscores between digits are
    removed, and the rest must be, as a whole, what [_PyOS_ascii_strtod]
    reads. Only acceptance is modelled: [float_accepts s] is [true] when
    [float(s)] returns and [false] when it raises [ValueError]. *)

Definition is_ascii_str (s : pystr) : bool := forallb (fun c => c <? 128) s.

Fixpoint transform_chars (s : pystr) : pystr :=
  match s with
  | [] => []
  | c :: rest =>
      if c <? 127 then c :: transform_chars rest
      else if Py_UNICODE_ISSPACE c then SPACE :: transform_chars rest
      else match Py_UNICODE_TODECIMAL c with
           | Some d => (48 + d) :: transform_chars rest
           | None => [63]     (* a question mark ends the copy *)
           end
  end.

Definition TransformDecimalAndSpaceToASCII (s : pystr) : pystr :=
  if is_ascii_str s then s else transform_chars s.

Fixpoint lstrip (s : pystr) : pystr :=
  match s with
  | [] => []
  | c :: rest => if Py_ISSPACE c then lstrip rest else s
  end.

Definition rstrip (s : pystr) : pystr := rev (lstrip (rev s)).

(** [_Py_string_to_number_with_underscores]: [prev] is the character
    before the one being read (NUL at the start). *)
Fixpoint strip_underscores (prev : N) (s : pystr) : option pystr :=
  match s with
  | [] => if prev =? UNDERSCORE then None else Some []
  | c :: rest =>
      if c =? UNDERSCORE then
        if Py_ISDIGIT prev then strip_underscores c rest else None
      else if (prev =? UNDERSCORE) && negb (Py_ISDIGIT c) then None
      else option_map (cons c) (strip_underscores c rest)
  end.

Definition string_to_number_with_underscores (s : pystr) : option pystr :=
  if existsb (fun c => c =? UNDERSCORE) s then strip_underscores 0 s else Some s.

Definition is_sign (c : N) : bool := (c =? 43) || (c =? 45).
Definition is_exp_mark (c : N) : bool := (c =? 101) || (c =? 69).
Definition DOT : N := 46.

Definition skip_sign (s : pystr) : pystr :=
  match s with
  | c :: rest => if is_sign c then rest else s
  | [] => []
  end.

Fixpoint skip_digits (s : pystr) : pystr :=
  match s with
  | c :: rest => if Py_ISDIGIT c then skip_digits rest else s
  | [] => []
  end.

Fixpoint count_digits (s : pystr) : nat :=
  match s with
  | c :: rest => if Py_ISDIGIT c then S (count_digits rest) else O
  | [] => O
  end.

(** [_Py_dg_strtod]: what is left of [s] after the longest decimal number
    at its start, [None] when no number starts there. The fraction is read
    after a point; an exponent mark that no digit follows is not part of
    the number. *)
Definition skip_fraction (s : pystr) : nat * pystr :=
  match s with
  | c :: rest => if c =? DOT then (count_digits rest, skip_digits rest) else (O, s)
  | [] => (O, s)
  end.

Definition skip_exponent (s : pystr) : pystr :=
  match s with
  | c :: rest =>
      if is_exp_mark c then
        let r1 := skip_sign rest in
        if Nat.eqb (count_digits r1) 0 then s else skip_digits r1
      else s
  | [] => []
  end.

Definition dg_strtod_end (s : pystr) : option pystr :=
  let s1 := skip_sign s in
  let s2 := skip_digits s1 in
  let '(nf, s3) := skip_fraction s2 in
  if Nat.eqb (count_digits s1 + nf) 0 then None else Some (skip_exponent s3).

(** [case_insensitive_match s t]: [t], in lower case, starts [s]; the
    result is what follows it. *)
Fixpoint case_insensitive_match (s t : pystr) : option pystr :=
  match t with
  | [] => Some s
  | x :: t' =>
      match s with
      | c :: s' => if Py_TOLOWER c =? x then case_insensitive_match s' t' else None
      | [] => None
      end
  end.

Definition parse_inf_or_nan_end (s : pystr) : option pystr :=
  let s1 := skip_sign s in
  match case_insensitive_match s1 (py "inf") with
  | Some r =>
      match case_insensitive_match r (py "inity") with
      | Some r' => Some r'
      | None => Some r
      end
  | None => case_insensitive_match s1 (py "nan")
  end.

Definition ascii_strtod_end (s : pystr) : option pystr :=
  match dg_strtod_end s with
  | Some r => Some r
  | None => parse_inf_or_nan_end s
  end.

(** [float_from_string_inner]: the number must end where the string ends. *)
Definition float_from_string_inner (s : pystr) : bool :=
  match ascii_strtod_end s with
  | Some [] => true
  | _ => false
  end.

Definition float_accepts (s : pystr) : bool :=
  match lstrip (TransformDecimalAndSpaceToASCII s) with
  | [] => false
  | s1 =>
      match string_to_number_with_underscores (rstrip s1) with
      | Some u => float_from_string_inner u
      | None => false
      end
  end.

(** [is_number(s)]: [True] when [float(s)] returns, [False] on [ValueError]. *)
Definition is_number (s : pystr) : bool :=
  if float_accepts s then true else false.

(** ** Exceptions *)

Inductive exn : Type :=
  | FileNotFoundError
  | PermissionError
  | OSError
  | LookupError
  | UnicodeError
  | MemoryError
  | ZeroDivisionError
  | OverflowError.

Definition is_FileNotFoundError (e : exn) : bool :=
  match e with
  | FileNotFoundError => true
  | _ => false
  end.

(** ** [int((bytes_read / total_size) * 100)]

    [/] on two [int]s is the quotient correctly rounded to binary64 (round
    to nearest, ties to even); [*] is the binary64 product; [int] truncates.
    A finite non-negative binary64 number is written [(m, e)] for
    [m * 2^e]. *)

Local Open Scope Z_scope.

Definition round_half_even (n d : Z) : Z :=
  let q := n / d in
  match 2 * (n mod d) ?= d with
  | Lt => q
  | Gt => q + 1
  | Eq => if Z.even q then q else q + 1
  end.

(** The integer [k] with [2^k <= n/d < 2^(k+1)], for positive [n] and [d]. *)
Definition floor_log2_ratio (n d : Z) : Z :=
  let k := Z.log2 n - Z.log2 d in
  if n * 2 ^ Z.max 0 (- k) <? d * 2 ^ Z.max 0 k then k - 1 else k.

(** The binary64 number nearest to [n/d] ([n >= 0], [d > 0]): 53 bits of
    precision, exponents from [-1074]; [None] when it is out of range. *)
Definition round_binary64 (n d : Z) : option (Z * Z) :=
  if n =? 0 then Some (0, 0)
  else
    let e := Z.max (floor_log2_ratio n d - 52) (- 1074) in
    let m := round_half_even (n * 2 ^ Z.max 0 (- e)) (d * 2 ^ Z.max 0 e) in
    if m * 2 ^ (e + 1074) <? 2 ^ 2098 then Some (m, e) else None.

Definition int_true_divide (x y : Z) : exn + Z * Z :=
  if y =? 0 then inl ZeroDivisionError
  else match round_binary64 x y with
       | Some v => inr v
       | None => inl OverflowError
       end.

(** [v * 100]; [None] stands for the infinity an overflow yields. *)
Definition float_mul_100 (v : Z * Z) : option (Z * Z) :=
  let '(m, e) := v in
  round_binary64 (m * 100 * 2 ^ Z.max 0 e) (2 ^ Z.max 0 (- e)).

(** [int(v)]; [int] of an infinity raises [OverflowError]. *)
Definition float_to_int (v : option (Z * Z)) : exn + Z :=
  match v with
  | Some (m, e) => inr (m * 2 ^ Z.max 0 e / 2 ^ Z.max 0 (- e))
  | None => inl OverflowError
  end.

Definition current_percent_of (bytes_read total_size : N) : exn + Z :=
  match int_true_divide (Z.of_N bytes_read) (Z.of_N total_size) with
  | inl e => inl e
  | inr q => float_to_int (float_mul_100 q)
  end.

(** The same percentage with the operations of the standard library's
    specification of IEEE 754 arithmetic, at the binary64 format; it
    serves to check the rounding above on sample sizes. *)
Definition binary64_of_Z (n : Z) : SpecFloat.spec_float :=
  SpecFloat.binary_normalize 53 1024 n 0 false.

Definition reference_percent (x y : Z) : option Z :=
  match SpecFloat.SFmul 53 1024
          (SpecFloat.SFdiv 53 1024 (binary64_of_Z x) (binary64_of_Z y))
          (binary64_of_Z 100) with
  | SpecFloat.S754_zero _ => Some 0
  | SpecFloat.S754_finite false m e =>
      Some (Z.pos m * 2 ^ Z.max 0 e / 2 ^ Z.max 0 (- e))
  | _ => None
  end.

Local Close Scope Z_scope.

(** ** [len(line.encode(encoding, errors='ignore'))] *)

Inductive encoding : Type :=
  | utf_8          (* the default *)
  | utf_8_sig
  | windows_1252   (* the alternative the docstring names *)
  | latin_1.

Definition utf_8_width (c : N) : N :=
  if c <? 0x80 then 1
  else if c <? 0x800 then 2
  else if (0xD800 <=? c) && (c <=? 0xDFFF) then 0   (* a surrogate is dropped *)
  else if c <? 0x10000 then 3
  else 4.

Definition cp1252_ranges : list (N * N) :=
  [ (0x0, 0x7F); (0xA0, 0xFF); (0x152, 0x153); (0x160, 0x161); (0x178, 0x178);
    (0x17D, 0x17E); (0x192, 0x192); (0x2C6, 0x2C6); (0x2DC, 0x2DC);
    (0x2013, 0x2014); (0x2018, 0x201A); (0x201C, 0x201E); (0x2020, 0x2022);
    (0x2026, 0x2026); (0x2030, 0x2030); (0x2039, 0x203A); (0x20AC, 0x20AC);
    (0x2122, 0x2122) ].

Definition sum_N (l : list N) : N := foldr N.add 0 l.

(** The number of bytes a character is encoded with; a character the
    encoding does not have is dropped. *)
Definition char_width (enc : encoding) (c : N) : N :=
  match enc with
  | utf_8 | utf_8_sig => utf_8_width c
  | windows_1252 => if UCD.in_ranges c cp1252_ranges then 1 else 0
  | latin_1 => if c <? 0x100 then 1 else 0
  end.

(** The number of bytes of [line.encode(encoding, errors='ignore')]. The
    [utf-8-sig] codec puts the three bytes of the byte order mark in front
    of every string it encodes. *)
Definition encode_len (enc : encoding) (line : pystr) : N :=
  match enc with utf_8_sig => 3 | _ => 0 end + sum_N (map (char_width enc) line).

(** ** The keyword extraction of one line *)

(** Step 3: [line.replace('=', ' ').replace('{', ' ').replace('}', ' ')]. *)
Definition replace_operators (s : pystr) : pystr :=
  str_replace (ord "}") SPACE
    (str_replace (ord "{") SPACE (str_replace (ord "=") SPACE s)).

(** Steps 1 to 3: comment, quoted strings, structural operators. *)
Definition clean_line (line : pystr) : pystr :=
  replace_operators (quoted_string_pattern_sub (split_hash_0 line)).

(** Step 4: [tokens = line.split()]. *)
Definition tokens (line : pystr) : list pystr := str_split (clean_line line).

(** Step 5: the branch the loop body takes on a token. *)
Inductive token_branch : Type :=
  | Skip_empty       (* if not token: continue *)
  | Skip_operator    (* if token in ['=', '{', '}']: continue *)
  | Skip_number      (* if is_number(token): continue *)
  | Count_keyword    (* keyword_counts[token] += 1 *)
  | Drop_other.      (* fullmatch fails: nothing happens *)

Definition operator_tokens : list pystr := [py "="; py "{"; py "}"].

Definition branch_of (token : pystr) : token_branch :=
  if bool_decide (token = []) then Skip_empty
  else if bool_decide (token ∈ operator_tokens) then Skip_operator
  else if is_number token then Skip_number
  else if word_pattern_fullmatch token then Count_keyword
  else Drop_other.

(** [keyword_counts[token] += 1] on a [Counter]: a missing key reads 0. *)
Definition counter_get (counts : gmap pystr Z) (token : pystr) : Z :=
  default 0%Z (counts !! token).

Definition counter_incr (token : pystr) (counts : gmap pystr Z) : gmap pystr Z :=
  <[token := (counter_get counts token + 1)%Z]> counts.

Definition process_token (counts : gmap pystr Z) (token : pystr) : gmap pystr Z :=
  match branch_of token with
  | Count_keyword => counter_incr token counts
  | _ => counts
  end.

Definition process_tokens (counts : gmap pystr Z) (toks : list pystr) : gmap pystr Z :=
  foldl process_token counts toks.

(** ** What the program prints and writes *)

Inductive printed : Type :=
  | Error_file_not_found
  | Analyzing_file
  | Reading (percent : Z)
  | File_reading_complete
  | Error_reading (e : exn)
  | Try_changing_encoding
  | Writing_results
  | CSV_created
  | Error_writing (e : exn).

Inductive csv_row : Type :=
  | Header                               (* Keyword,Count *)
  | Row (keyword : pystr) (count : Z).

Record outcome := {
  stdout : list printed;
  csv_file : option (list csv_row)       (* [None]: no file is written *)
}.

(** ** The file system as the program sees it *)

Record input_file := {
  path_exists : bool;          (* os.path.exists(file_path) *)
  getsize : N;                 (* os.path.getsize(file_path), when it returns *)
  open_error : option exn;     (* raised by open(file_path, 'r', ...) *)
  lines : list pystr;          (* the lines the iteration over f yields *)
  read_error : option exn      (* raised after them; None at end of file *)
}.

(** ** The reading loop *)

Record loop_state := {
  keyword_counts : gmap pystr Z;
  bytes_read : N;
  last_percent : Z;
  printed_so_far : list printed
}.

(** One iteration of [for line in f]. The division is the only step that
    can raise, and it comes before anything is printed or counted. *)
Definition loop_body (enc : encoding) (total_size : N) (st : loop_state)
    (line : pystr) : exn + loop_state :=
  let bytes_read' := bytes_read st + encode_len enc line in
  match current_percent_of bytes_read' total_size with
  | inl e => inl e
  | inr current_percent =>
      let emit := bool_decide (last_percent st < current_percent)%Z in
      inr {| keyword_counts := process_tokens (keyword_counts st) (tokens line);
             bytes_read := bytes_read';
             last_percent := if emit then current_percent else last_percent st;
             printed_so_far :=
               if emit then printed_so_far st ++ [Reading current_percent]
               else printed_so_far st |}
  end.

(** The loop over the lines; the result holds the state reached and the
    exception that ended the loop, if any. *)
Fixpoint read_loop (enc : encoding) (total_size : N) (st : loop_state)
    (ls : list pystr) (at_end : option exn) : loop_state * option exn :=
  match ls with
  | [] => (st, at_end)
  | line :: rest =>
      match loop_body enc total_size st line with
      | inl e => (st, Some e)
      | inr st' => read_loop enc total_size st' rest at_end
      end
  end.

(** ** [sorted(keyword_counts.items(), key=lambda item: (-item[1], item[0]))] *)

(** [a < b] on [str]: lexicographic on code points. *)
Fixpoint str_ltb (a b : pystr) : bool :=
  match a, b with
  | _, [] => false
  | [], _ :: _ => true
  | x :: a', y :: b' => (x <? y) || ((x =? y) && str_ltb a' b')
  end.

Definition sort_key (item : pystr * Z) : Z * pystr := ((- item.2)%Z, item.1).

(** [k1 < k2] on the key tuples. *)
Definition key_ltb (k1 k2 : Z * pystr) : bool :=
  (k1.1 <? k2.1)%Z || ((k1.1 =? k2.1)%Z && str_ltb k1.2 k2.2).

(** [sorted] is stable: an item goes in front of the first one whose key is
    not below its own. *)
Fixpoint insert_item (x : pystr * Z) (l : list (pystr * Z)) : list (pystr * Z) :=
  match l with
  | [] => [x]
  | y :: rest =>
      if key_ltb (sort_key y) (sort_key x) then y :: insert_item x rest
      else x :: y :: rest
  end.

Definition sorted_by_key (items : list (pystr * Z)) : list (pystr * Z) :=
  foldr insert_item [] items.

Definition sorted_keywords (counts : gmap pystr Z) : list (pystr * Z) :=
  sorted_by_key (map_to_list counts).

(** ** [count_keywords(file_path, output_csv_path, encoding)]

    [csv_error] is the exception, if any, that opening the output file for
    writing raises. *)
Definition count_keywords (file : input_file) (csv_error : option exn)
    (enc : encoding) : outcome :=
  if negb (path_exists file) then
    {| stdout := [Error_file_not_found]; csv_file := None |}
  else
    let total_size := getsize file in
    let st0 := {| keyword_counts := ∅; bytes_read := 0; last_percent := (-1)%Z;
                  printed_so_far := [Analyzing_file] |} in
    let '(st, raised) :=
      match open_error file with
      | Some e => (st0, Some e)
      | None => read_loop enc total_size st0 (lines file) (read_error file)
      end in
    match raised with
    | Some e =>
        if is_FileNotFoundError e then
          {| stdout := printed_so_far st ++ [Error_file_not_found];
             csv_file := None |}
        else
          {| stdout := printed_so_far st ++ [Error_reading e; Try_changing_encoding];
             csv_file := None |}
    | None =>
        let out := printed_so_far st ++ [Reading 100; File_reading_complete] in
        let rows := map (fun item => Row item.1 item.2)
                        (sorted_keywords (keyword_counts st)) in
        match csv_error with
        | None =>
            {| stdout := out ++ [Writing_results; CSV_created];
               csv_file := Some (Header :: rows) |}
        | Some e =>
            {| stdout := out ++ [Writing_results; Error_writing e];
               csv_file := None |}
        end
    end.

(** ** The classes of the specification

    These follow the words of the specification, not the program: the
    character class [A-Za-z0-9_], and the decimal numeric literal, with an
    optional sign, an integer or a fraction, and an optional exponent. *)

Definition spec_word_char (c : N) : bool :=
  ((65 <=? c) && (c <=? 90)) || ((97 <=? c) && (c <=? 122))
  || ((48 <=? c) && (c <=? 57)) || (c =? UNDERSCORE).

Definition spec_word_fullmatch (token : pystr) : bool :=
  match token with
  | [] => false
  | _ :: _ => forallb spec_word_char token
  end.


(** No sign, a plus or a minus. *)
Definition spec_sign (s : pystr) : Prop := s = [] ∨ s = [43] ∨ s = [45].




(** The characters a decimal literal is written with. *)
Definition literal_char (c : N) : bool :=
  Py_ISDIGIT c || is_sign c || (c =? DOT) || is_exp_mark c.



(** ** The token stream and the progress sequence, for the statements *)

(** The tokens of the lines that reach [keyword_counts[token] += 1], in
    the order the loop meets them. *)
Definition counted (token : pystr) : bool :=
  match branch_of token with
  | Count_keyword => true
  | _ => false
  end.

Definition emitted (toks : list pystr) : list pystr := List.filter counted toks.

Definition emitted_tokens (ls : list pystr) : list pystr :=
  emitted (concat (map tokens ls)).

(** How often [t] occurs in [l]. *)
Definition tally (l : list pystr) (t : pystr) : Z :=
  Z.of_nat (length (List.filter (λ x, bool_decide (x = t)) l)).

(** [counts] holds exactly the tokens of [l], each with its number of
    occurrences. *)
Definition counts_tally (counts : gmap pystr Z) (l : list pystr) : Prop :=
  ∀ t, counts !! t = if (tally l t =? 0)%Z then None else Some (tally l t).

(** The percentages printed, in order. *)
Definition progress (out : list printed) : list Z :=
  omap (λ p, match p with Reading n => Some n | _ => None end) out.

(** [row_before a b]: the sort key of [a] is below that of [b], that is,
    [a] has the larger count, or the same count and the smaller token. *)
Definition row_before (a b : pystr * Z) : Prop :=
  (b.2 < a.2)%Z ∨ (a.2 = b.2 ∧ str_ltb a.1 b.1 = true).

(** ** A regular file, from its bytes

    What [os.path.getsize] and the iteration over [open(file_path, 'r',
    encoding=encoding, errors='ignore')] deliver for a file that holds the
    bytes [raw] and does not change during the run: the size is the number
    of bytes; the text is the bytes decoded, undecodable bytes being
    dropped; the line ends [CR LF] and [CR] are read as [LF]; the lines are
    the pieces of the text up to and including each [LF]. *)

Definition CR : N := 13.

Definition is_continuation (b : N) : bool := (0x80 <=? b) && (b <=? 0xBF).

(** The second byte a sequence of three or of four bytes may have. *)
Definition second_of_3 (b0 b1 : N) : bool :=
  if b0 =? 0xE0 then (0xA0 <=? b1) && (b1 <=? 0xBF)
  else if b0 =? 0xED then (0x80 <=? b1) && (b1 <=? 0x9F)
  else is_continuation b1.

Definition second_of_4 (b0 b1 : N) : bool :=
  if b0 =? 0xF0 then (0x90 <=? b1) && (b1 <=? 0xBF)
  else if b0 =? 0xF4 then (0x80 <=? b1) && (b1 <=? 0x8F)
  else is_continuation b1.

(** [bytes.decode('utf-8', errors='ignore')]: an ill-formed sequence is
    dropped up to the byte that breaks it, and decoding resumes there; a
    sequence the end of the data cuts short is dropped whole. *)
Fixpoint utf_8_decode (bs : list N) : pystr :=
  match bs with
  | [] => []
  | b0 :: r0 =>
      if b0 <? 0x80 then b0 :: utf_8_decode r0
      else if b0 <? 0xC2 then utf_8_decode r0
      else if b0 <? 0xE0 then
        match r0 with
        | [] => []
        | b1 :: r1 =>
            if is_continuation b1
            then ((b0 - 0xC0) * 0x40 + (b1 - 0x80)) :: utf_8_decode r1
            else utf_8_decode r0
        end
      else if b0 <? 0xF0 then
        match r0 with
        | [] => []
        | b1 :: r1 =>
            if second_of_3 b0 b1 then
              match r1 with
              | [] => []
              | b2 :: r2 =>
                  if is_continuation b2
                  then ((b0 - 0xE0) * 0x1000 + (b1 - 0x80) * 0x40 + (b2 - 0x80))
                       :: utf_8_decode r2
                  else utf_8_decode r1
              end
            else utf_8_decode r0
        end
      else if b0 <? 0xF5 then
        match r0 with
        | [] => []
        | b1 :: r1 =>
            if second_of_4 b0 b1 then
              match r1 with
              | [] => []
              | b2 :: r2 =>
                  if is_continuation b2 then
                    match r2 with
                    | [] => []
                    | b3 :: r3 =>
                        if is_continuation b3
                        then ((b0 - 0xF0) * 0x40000 + (b1 - 0x80) * 0x1000
                              + (b2 - 0x80) * 0x40 + (b3 - 0x80))
                             :: utf_8_decode r3
                        else utf_8_decode r2
                    end
                  else utf_8_decode r1
              end
            else utf_8_decode r0
        end
      else utf_8_decode r0
  end.

(** [utf-8-sig] skips a byte order mark at the start of the data. *)
Definition utf_8_sig_decode (bs : list N) : pystr :=
  match bs with
  | 0xEF :: 0xBB :: 0xBF :: rest => utf_8_decode rest
  | _ => utf_8_decode bs
  end.

(** The characters of the bytes [0x80] to [0x9F] in windows-1252; five
    bytes have none. *)
Definition cp1252_high : list (option N) :=
  [ Some 0x20AC; None; Some 0x201A; Some 0x192; Some 0x201E; Some 0x2026;
    Some 0x2020; Some 0x2021; Some 0x2C6; Some 0x2030; Some 0x160; Some 0x2039;
    Some 0x152; None; Some 0x17D; None; None; Some 0x2018; Some 0x2019;
    Some 0x201C; Some 0x201D; Some 0x2022; Some 0x2013; Some 0x2014; Some 0x2DC;
    Some 0x2122; Some 0x161; Some 0x203A; Some 0x153; None; Some 0x17E;
    Some 0x178 ].

Definition cp1252_decode_byte (b : N) : option N :=
  if (0x80 <=? b) && (b <? 0xA0)
  then mjoin (cp1252_high !! N.to_nat (b - 0x80))
  else Some b.

Definition decode (enc : encoding) (bs : list N) : pystr :=
  match enc with
  | utf_8 => utf_8_decode bs
  | utf_8_sig => utf_8_sig_decode bs
  | windows_1252 => omap cp1252_decode_byte bs
  | latin_1 => bs
  end.

(** Universal newlines. *)
Fixpoint translate_newlines (s : pystr) : pystr :=
  match s with
  | [] => []
  | c :: rest =>
      if c =? CR then
        match rest with
        | c' :: rest' =>
            if c' =? LF then LF :: translate_newlines rest'
            else LF :: translate_newlines rest
        | [] => [LF]
        end
      else c :: translate_newlines rest
  end.

(** The lines of a text; [cur] is the line being read, latest character
    first. *)
Fixpoint readlines_scan (cur : pystr) (s : pystr) : list pystr :=
  match s with
  | [] => flush cur []
  | c :: rest =>
      if c =? LF then rev (c :: cur) :: readlines_scan [] rest
      else readlines_scan (c :: cur) rest
  end.

Definition readlines (s : pystr) : list pystr := readlines_scan [] s.

Definition regular_file (enc : encoding) (raw : list Byte.byte) : input_file :=
  {| path_exists := true;
     getsize := N.of_nat (length raw);
     open_error := None;
     lines := readlines (translate_newlines (decode enc (map Byte.to_N raw)));
     read_error := None |}.

(** The program on a regular file: the encoding it is called with is the
    one the file is opened with. *)
Definition count_keywords_on (raw : list Byte.byte) (csv_error : option exn)
    (enc : encoding) : outcome :=
  count_keywords (regular_file enc raw) csv_error enc.

(** ** Example inputs *)

Definition bytes_of (s : pystr) : list Byte.byte := omap Byte.of_N s.

(** The end-to-end scenario of the specification: four lines, 69 bytes. *)
Definition scenario_lines : list pystr :=
  [ py "name = " ++ [QUOTE] ++ py "Test Block" ++ [QUOTE; LF];
    py "size = 10" ++ [LF];
    py "color = { 1.0 0.5 0.2 }" ++ [LF];
    py "name = enabled" ++ [LF] ].

Definition scenario_raw : list Byte.byte := bytes_of (concat scenario_lines).

(** A token with a letter outside ASCII (e with acute accent, U+00E9). *)
Definition cafe : pystr := py "caf" ++ [0xE9].


(** A line with a [#] inside a quoted string. *)
Definition hash_in_quotes_before : pystr := py "key = " ++ [QUOTE] ++ py "a ".
Definition hash_in_quotes_after : pystr := py " b" ++ [QUOTE] ++ py " c" ++ [LF].

Definition scenario_report : list csv_row :=
  [ Header; Row (py "name") 2; Row (py "color") 1; Row (py "enabled") 1;
    Row (py "size") 1 ].

(** A file that can be opened, yields one line and then fails to read. *)
Definition failing_file : input_file :=
  {| path_exists := true; getsize := 12; open_error := None;
     lines := [py "a = 1" ++ [LF]]; read_error := Some OSError |}.

(** ** Further notions, for the statements about the rest of the run *)

(** The byte order mark as a character, U+FEFF. *)
Definition BOM_CHAR : N := 0xFEFF.

(** The three bytes of the byte order mark in UTF-8. *)
Definition BOM_UTF8 : list Byte.byte := bytes_of [0xEF; 0xBB; 0xBF].

(** The words [float] reads as numbers, in lower case. *)
Definition float_words : list pystr := [py "inf"; py "infinity"; py "nan"].

Definition is_ascii_letter (c : N) : bool :=
  ((65 <=? c) && (c <=? 90)) || ((97 <=? c) && (c <=? 122)).

(** The three messages that report a failure. *)
Definition is_error_message (p : printed) : bool :=
  match p with
  | Error_file_not_found | Error_reading _ | Error_writing _ => true
  | _ => false
  end.

(** The characters the CSV writer would have to quote, and those the
    cleaning of a line removes. *)
Definition csv_special : list N := [44; QUOTE; CR; LF].
Definition line_special : list N := [HASH; ord "="; ord "{"; ord "}"].

(** Step 3 of the cleaning as one map over the characters. *)
Definition operator_to_space (c : N) : N :=
  if bool_decide (c ∈ [ord "="; ord "{"; ord "}"]) then SPACE else c.

(** An ASCII letter or the underscore. *)
Definition word_letter (c : N) : Prop := is_ascii_letter c = true ∨ c = UNDERSCORE.

(** The factor by which the bytes the loop counts can exceed the size of
    the file: with [utf-8-sig] the three bytes of the byte order mark are
    counted for every line. *)
Definition overcount (enc : encoding) : N :=
  match enc with utf_8_sig => 4 | _ => 1 end.

(** The count a row of the report carries; the header carries none. *)
Definition row_count (r : csv_row) : Z :=
  match r with
  | Header => 0%Z
  | Row _ c => c
  end.

Definition sum_Z (l : list Z) : Z := foldr Z.add 0%Z l.

Definition report_total (report : list csv_row) : Z := sum_Z (map row_count report).

(** A file that exists, opens and yields the lines [ls] without failing;
    [size] is what [os.path.getsize] answers. *)
Definition listed_file (size : N) (ls : list pystr) : input_file :=
  {| path_exists := true; getsize := size; open_error := None;
     lines := ls; read_error := None |}.

(** The number of double quotes of a string; they pair up from the left,
    so that an even number leaves no quote open. *)
Definition quote_count (s : pystr) : nat :=
  length (List.filter (λ c, c =? QUOTE) s).

Definition quotes_closed (s : pystr) : Prop := Nat.even (quote_count s) = true.

(** A file as a [/proc] file system presents it: [os.path.getsize]
    answers 0, and reading it yields a line all the same. *)
Definition zero_size_file : input_file := listed_file 0 [py "name = x" ++ [LF]].

(** ** The call, with a size query that may fail

    [os.path.getsize] (line 35) is called after the existence check and
    the opening line and before the [try]: an exception it raises leaves
    [count_keywords] uncaught, with the opening line printed and nothing
    else done. [getsize_error] is that exception, if any; without one the
    query answers [getsize file] and the run is [count_keywords]. *)
Inductive call_result : Type :=
  | Returns (out : outcome)
  | Raises (e : exn) (out : outcome).   (* [out]: what was done before *)

Definition count_keywords_call (file : input_file) (getsize_error : option exn)
    (csv_error : option exn) (enc : encoding) : call_result :=
  if negb (path_exists file) then Returns (count_keywords file csv_error enc)
  else
    match getsize_error with
    | Some e => Raises e {| stdout := [Analyzing_file]; csv_file := None |}
    | None => Returns (count_keywords file csv_error enc)
    end.

(** What a call has printed and written when it ends, either way. *)
Definition effects (r : call_result) : outcome :=
  match r with
  | Returns out | Raises _ out => out
  end.

(** * Properties *)

(** ** The operations on sample inputs *)

Example tokens_noise_excluded :
  tokens (py "key = " ++ [QUOTE] ++ py "a quoted value" ++ [QUOTE]
          ++ py " # trailing comment" ++ [LF])
  = [py "key"].
Proof. vm_compute. reflexivity. Qed.

Example tokens_of_block :
  tokens (py "color = { 1.0 0.5 0.2 }" ++ [LF])
  = [py "color"; py "1.0"; py "0.5"; py "0.2"].
Proof. vm_compute. reflexivity. Qed.

Example quoted_sub_two_strings :
  quoted_string_pattern_sub
    (py "a " ++ [QUOTE] ++ py "b" ++ [QUOTE] ++ py " c " ++ [QUOTE] ++ py "d")
  = py "a   c " ++ [QUOTE] ++ py "d".
Proof. vm_compute. reflexivity. Qed.

Example is_number_samples :
  map is_number
    [py "42"; py "-3.14"; py "0.5"; py "1e5"; py ".5"; py "5."; py "+7";
     py "1_000"; py "inf"; py "Infinity"; py "NaN";
     py "v2"; py "1e"; py "."; py "0x10"; py "1__0"; py "--1"; py "size"]
  = [true; true; true; true; true; true; true;
     true; true; true; true;
     false; false; false; false; false; false; false].
Proof. vm_compute. reflexivity. Qed.

Example branch_samples :
  map branch_of [py "name"; py "10"; py "cost:"; py "a.b"; py "v2"; py "_x"]
  = [Count_keyword; Skip_number; Drop_other; Drop_other; Count_keyword;
     Count_keyword].
Proof. vm_compute. reflexivity. Qed.

(** The quotient is rounded before it is multiplied: 29 bytes of 100 give
    28, not 29. *)
Example current_percent_samples :
  map (λ x, current_percent_of x 100) [0; 29; 50; 57; 100; 250]
  = [inr 0; inr 28; inr 50; inr 56; inr 100; inr 250]%Z
  ∧ current_percent_of 5 0 = inl ZeroDivisionError.
Proof. vm_compute. split; reflexivity. Qed.

(** The scenario of the specification: the last line brings the count to
    the size, so the loop prints 100 and the final 100 follows it. *)
Example scenario_progress :
  progress (stdout (count_keywords_on scenario_raw None utf_8))
  = [28; 43; 78; 100; 100]%Z.
Proof. vm_compute. reflexivity. Qed.

(** The rounding agrees with the IEEE 754 operations of the standard
    library on all sizes up to 24 and on a range of larger ones. *)
Example current_percent_agrees_with_reference :
  forallb (λ y,
    forallb (λ x,
      bool_decide
        (match current_percent_of (N.of_nat x) (N.of_nat y) with
         | inr p => Some p
         | inl _ => None
         end = reference_percent (Z.of_nat x) (Z.of_nat y))
      && bool_decide
        (match current_percent_of (N.of_nat x * 1234567891 + 7)
                 (N.of_nat y * 9876543211 + 3) with
         | inr p => Some p
         | inl _ => None
         end = reference_percent (Z.of_nat x * 1234567891 + 7)
                 (Z.of_nat y * 9876543211 + 3)))
      (seq 0 25))
    (seq 0 25) = true.
Proof. vm_compute. reflexivity. Qed.

(** ** The line operations *)

Section line_operations.

Implicit Types (s p r a q cur : pystr) (c : N).

Lemma elem_of_rev {A} (x : A) (l : list A) : x ∈ rev l ↔ x ∈ l.
Proof. rewrite !list_elem_of_In. symmetry. apply in_rev. Qed.

Lemma rev_nil_inv {A} (l : list A) : rev l = [] → l = [].
Proof. intros H. by rewrite <- (rev_involutive l), H. Qed.

Lemma split_hash_0_prefix p r : HASH ∉ p → split_hash_0 (p ++ HASH :: r) = p.
Proof.
  induction p as [|c p IH]; intros Hp; simpl.
  - reflexivity.
  - apply not_elem_of_cons in Hp as [Hc Hp].
    destruct (N.eqb_spec c HASH) as [->|_]; [done|]. by rewrite IH.
Qed.

Lemma split_hash_0_whole s : HASH ∉ s → split_hash_0 s = s.
Proof.
  induction s as [|c s IH]; intros Hs; simpl; [done|].
  apply not_elem_of_cons in Hs as [Hc Hs].
  destruct (N.eqb_spec c HASH) as [->|_]; [done|]. by rewrite IH.
Qed.

Lemma split_hash_0_no_hash s : HASH ∉ split_hash_0 s.
Proof.
  induction s as [|c s IH]; simpl; [apply not_elem_of_nil|].
  destruct (N.eqb_spec c HASH) as [->|Hc]; [apply not_elem_of_nil|].
  apply not_elem_of_cons. split; [congruence|done].
Qed.

(** A line is its part before the first [#], or that part, the [#] and a
    rest. *)
Lemma split_hash_0_decompose s :
  s = split_hash_0 s ∨ ∃ r, s = split_hash_0 s ++ HASH :: r.
Proof.
  induction s as [|c s IH]; simpl; [by left|].
  destruct (N.eqb_spec c HASH) as [->|Hc].
  - right. by exists s.
  - destruct IH as [IH|[r IH]].
    + left. by f_equal.
    + right. exists r. simpl. by f_equal.
Qed.

Lemma quoted_sub_scan_outside a s :
  QUOTE ∉ a → quoted_sub_scan None (a ++ s) = a ++ quoted_sub_scan None s.
Proof.
  induction a as [|c a IH]; intros Ha; simpl; [done|].
  apply not_elem_of_cons in Ha as [Hc Ha].
  destruct (N.eqb_spec c QUOTE) as [->|_]; [done|]. by rewrite IH.
Qed.

Lemma quoted_sub_scan_closed buf q r :
  QUOTE ∉ q →
  quoted_sub_scan (Some buf) (q ++ QUOTE :: r) = SPACE :: quoted_sub_scan None r.
Proof.
  revert buf. induction q as [|c q IH]; intros buf Hq; simpl.
  - reflexivity.
  - apply not_elem_of_cons in Hq as [Hc Hq].
    destruct (N.eqb_spec c QUOTE) as [->|_]; [done|]. by apply IH.
Qed.

Lemma quoted_sub_scan_unclosed buf q :
  QUOTE ∉ q → quoted_sub_scan (Some buf) q = QUOTE :: rev buf ++ q.
Proof.
  revert buf. induction q as [|c q IH]; intros buf Hq; simpl.
  - by rewrite app_nil_r.
  - apply not_elem_of_cons in Hq as [Hc Hq].
    destruct (N.eqb_spec c QUOTE) as [->|_]; [done|].
    rewrite IH by done. simpl. by rewrite <- app_assoc.
Qed.

(** The three equations of the substitution: text without a quote is
    kept, a quoted substring becomes one space, a quote that is never
    closed stays. *)
Lemma quoted_sub_no_quote a :
  QUOTE ∉ a → quoted_string_pattern_sub a = a.
Proof.
  intros Ha. unfold quoted_string_pattern_sub.
  rewrite <- (app_nil_r a) at 1. rewrite quoted_sub_scan_outside by done.
  simpl. apply app_nil_r.
Qed.

Lemma quoted_sub_match a q r :
  QUOTE ∉ a → QUOTE ∉ q →
  quoted_string_pattern_sub (a ++ QUOTE :: q ++ QUOTE :: r)
  = a ++ SPACE :: quoted_string_pattern_sub r.
Proof.
  intros Ha Hq. unfold quoted_string_pattern_sub.
  rewrite quoted_sub_scan_outside by done. simpl.
  by rewrite quoted_sub_scan_closed.
Qed.

Lemma quoted_sub_open a q :
  QUOTE ∉ a → QUOTE ∉ q →
  quoted_string_pattern_sub (a ++ QUOTE :: q) = a ++ QUOTE :: q.
Proof.
  intros Ha Hq. unfold quoted_string_pattern_sub.
  rewrite quoted_sub_scan_outside by done. simpl.
  by rewrite quoted_sub_scan_unclosed.
Qed.

Lemma str_replace_gone old new s :
  new ≠ old → old ∉ str_replace old new s.
Proof.
  intros Hne. unfold str_replace. induction s as [|c s IH]; simpl.
  - apply not_elem_of_nil.
  - apply not_elem_of_cons. split; [|done].
    destruct (N.eqb_spec c old); congruence.
Qed.

Lemma str_replace_keeps_out old new x s :
  x ≠ new → x ∉ s → x ∉ str_replace old new s.
Proof.
  intros Hne. unfold str_replace. induction s as [|c s IH]; simpl; intros Hs.
  - apply not_elem_of_nil.
  - apply not_elem_of_cons in Hs as [Hc Hs].
    apply not_elem_of_cons. split; [|by apply IH].
    destruct (N.eqb_spec c old); congruence.
Qed.

Lemma clean_line_no_operator line c :
  c ∈ [ord "="; ord "{"; ord "}"] → c ∉ clean_line line.
Proof.
  intros Hc. unfold clean_line, replace_operators.
  repeat (apply elem_of_cons in Hc as [->|Hc]).
  - apply str_replace_keeps_out; [done|].
    apply str_replace_keeps_out; [done|]. by apply str_replace_gone.
  - apply str_replace_keeps_out; [done|]. by apply str_replace_gone.
  - by apply str_replace_gone.
  - by apply elem_of_nil in Hc.
Qed.

Lemma flush_elem cur acc t :
  t ∈ flush cur acc → (cur ≠ [] ∧ t = rev cur) ∨ t ∈ acc.
Proof.
  destruct cur as [|c cur]; simpl; [by right|].
  intros [->|Ht]%elem_of_cons; [by left|by right].
Qed.

(** A token of [split()] is not empty, and its characters are characters
    of the string, none of them white space. *)
Lemma str_split_scan_elem cur s t :
  t ∈ str_split_scan cur s →
  t ≠ [] ∧ ∀ c, c ∈ t → c ∈ cur ∨ (c ∈ s ∧ Py_UNICODE_ISSPACE c = false).
Proof.
  revert cur. induction s as [|c s IH]; intros cur; simpl.
  - intros [[Hne ->]|Ht]%flush_elem; [|by apply elem_of_nil in Ht].
    split.
    + intros Hr. by apply Hne, rev_nil_inv.
    + intros x Hx. left. by rewrite elem_of_rev in Hx.
  - destruct (Py_UNICODE_ISSPACE c) eqn:Hsp.
    + intros [[Hne ->]|Ht]%flush_elem.
      * split.
        -- intros Hr. by apply Hne, rev_nil_inv.
        -- intros x Hx. left. by rewrite elem_of_rev in Hx.
      * apply IH in Ht as [Hne Hin]. split; [done|].
        intros x Hx. destruct (Hin x Hx) as [Hn|[Hs Hx']].
        -- by apply elem_of_nil in Hn.
        -- right. split; [by apply elem_of_cons; right|done].
    + intros Ht. apply IH in Ht as [Hne Hin]. split; [done|].
      intros x Hx. destruct (Hin x Hx) as [[->|Hcur]%elem_of_cons|[Hs Hx']].
      * right. split; [by apply elem_of_cons; left|done].
      * by left.
      * right. split; [by apply elem_of_cons; right|done].
Qed.

Lemma str_split_elem s t :
  t ∈ str_split s →
  t ≠ [] ∧ ∀ c, c ∈ t → c ∈ s ∧ Py_UNICODE_ISSPACE c = false.
Proof.
  intros Ht. apply str_split_scan_elem in Ht as [Hne Hin]. split; [done|].
  intros c Hc. destruct (Hin c Hc) as [Hn|H]; [by apply elem_of_nil in Hn|done].
Qed.

End line_operations.

(** ** [float] and the decimal literals *)

Section float_literals.

Implicit Types (s t r ds ip fp ex sg : pystr) (c : N).













(** A sign in front of a string that does not start with one. *)
Lemma skip_sign_app sg s :
  spec_sign sg →
  match s with c :: _ => is_sign c = false | [] => True end →
  skip_sign (sg ++ s) = s.
Proof.
  intros [ -> | [ -> | -> ] ] Hs; simpl; try done.
  destruct s as [|c s]; simpl; [done|]. by rewrite Hs.
Qed.








Lemma lstrip_no_space s : Forall (λ c, Py_ISSPACE c = false) s → lstrip s = s.
Proof. destruct 1 as [|c s Hc _]; simpl; [done|]. by rewrite Hc. Qed.

Lemma rstrip_no_space s : Forall (λ c, Py_ISSPACE c = false) s → rstrip s = s.
Proof.
  intros Hs. unfold rstrip. rewrite lstrip_no_space; [apply rev_involutive|].
  by apply Forall_rev.
Qed.






End float_literals.

(** ** The counter *)

Section counter.

Implicit Types (counts : gmap pystr Z) (l toks : list pystr) (t tok : pystr).

Lemma tally_nonneg l t : (0 ≤ tally l t)%Z.
Proof. unfold tally. lia. Qed.

Lemma tally_snoc_eq l t : tally (l ++ [t]) t = (tally l t + 1)%Z.
Proof.
  unfold tally. rewrite List.filter_app, length_app. simpl.
  rewrite bool_decide_true by done. simpl. lia.
Qed.

Lemma tally_snoc_ne l tok t : tok ≠ t → tally (l ++ [tok]) t = tally l t.
Proof.
  intros Hne. unfold tally. rewrite List.filter_app, length_app. simpl.
  rewrite bool_decide_false by done. simpl. lia.
Qed.

Lemma counts_tally_empty : counts_tally ∅ [].
Proof. intros t. by rewrite lookup_empty. Qed.

Lemma counts_tally_get counts l t :
  counts_tally counts l → counter_get counts t = tally l t.
Proof.
  intros H. unfold counter_get. rewrite H.
  destruct (Z.eqb_spec (tally l t) 0) as [->|]; done.
Qed.

Lemma counts_tally_incr counts l tok :
  counts_tally counts l → counts_tally (counter_incr tok counts) (l ++ [tok]).
Proof.
  intros H t. unfold counter_incr. destruct (decide (tok = t)) as [->|Hne].
  - rewrite lookup_insert_eq, tally_snoc_eq, (counts_tally_get _ l) by done.
    pose proof (tally_nonneg l t).
    destruct (Z.eqb_spec (tally l t + 1) 0); [lia|done].
  - rewrite lookup_insert_ne, tally_snoc_ne by done. apply H.
Qed.

Lemma process_tokens_tally counts l toks :
  counts_tally counts l →
  counts_tally (process_tokens counts toks) (l ++ emitted toks).
Proof.
  revert counts l. induction toks as [|tok toks IH]; intros counts l H; simpl.
  - by rewrite app_nil_r.
  - unfold process_token, counted.
    destruct (branch_of tok); try by apply IH.
    rewrite (cons_middle tok), app_assoc. by apply IH, counts_tally_incr.
Qed.

(** A counter that tallies a list has positive counts only. *)
Lemma counts_tally_lookup counts l t c :
  counts_tally counts l →
  counts !! t = Some c ↔ c = tally l t ∧ (0 < c)%Z.
Proof.
  intros H. rewrite H. pose proof (tally_nonneg l t).
  destruct (Z.eqb_spec (tally l t) 0); split.
  - done.
  - intros [-> ?]. lia.
  - intros [= <-]. lia.
  - by intros [-> _].
Qed.

Lemma tally_positive_elem l t : (0 < tally l t)%Z ↔ t ∈ l.
Proof.
  unfold tally. induction l as [|x l IH]; simpl.
  - split; [lia|by intros ?%elem_of_nil].
  - rewrite elem_of_cons. destruct (decide (x = t)) as [->|Hne].
    + rewrite bool_decide_true by done. simpl. split; [by left|lia].
    + rewrite bool_decide_false by done. rewrite IH.
      split; [by right|]. intros [?|?]; [congruence|done].
Qed.

Lemma emitted_elem toks t : t ∈ emitted toks ↔ t ∈ toks ∧ counted t = true.
Proof.
  unfold emitted. rewrite !list_elem_of_In. apply filter_In.
Qed.

End counter.

(** ** The order of the report *)

Section report_order.

Implicit Types (a b : pystr) (x y z : pystr * Z) (l : list (pystr * Z)).

Lemma str_ltb_irrefl a : str_ltb a a = false.
Proof.
  induction a as [|c a IH]; simpl; [done|].
  by rewrite N.ltb_irrefl, N.eqb_refl, IH.
Qed.

Lemma str_ltb_trans a b d :
  str_ltb a b = true → str_ltb b d = true → str_ltb a d = true.
Proof.
  revert b d. induction a as [|x a IH]; intros [|y b] [|z d]; simpl; try done.
  rewrite !orb_true_iff, !andb_true_iff, !N.ltb_lt, !N.eqb_eq.
  intros [?|[-> ?]] [?|[-> ?]]; [left; lia|by left|by left|right].
  split; [done|]. by eapply IH.
Qed.

(** Two different strings are ordered one way or the other. *)
Lemma str_ltb_total a b : a ≠ b → str_ltb a b = true ∨ str_ltb b a = true.
Proof.
  revert b. induction a as [|x a IH]; intros [|y b] Hne; simpl; try done;
    [by left|by right|].
  rewrite !orb_true_iff, !andb_true_iff, !N.ltb_lt, !N.eqb_eq.
  destruct (N.lt_trichotomy x y) as [?|[->|?]]; [by left; left| |by right; left].
  destruct (IH b) as [?|?]; [congruence|left; by right|right; by right].
Qed.

Lemma str_ltb_asym a b : str_ltb a b = true → str_ltb b a = false.
Proof.
  intros H. apply not_true_is_false. intros H'.
  pose proof (str_ltb_trans _ _ _ H H') as Hc. by rewrite str_ltb_irrefl in Hc.
Qed.

Lemma key_ltb_row_before x y :
  key_ltb (sort_key x) (sort_key y) = true ↔ row_before x y.
Proof.
  unfold key_ltb, sort_key, row_before. simpl.
  rewrite orb_true_iff, andb_true_iff, Z.ltb_lt, Z.eqb_eq.
  split; (intros [?|[? ?]]; [left; lia|right; split; [lia|done]]).
Qed.

Lemma row_before_irrefl x : ¬ row_before x x.
Proof. intros [?|[_ H]]; [lia|]. by rewrite str_ltb_irrefl in H. Qed.

Lemma row_before_trans x y z : row_before x y → row_before y z → row_before x z.
Proof.
  intros [?|[? ?]] [?|[? ?]]; [left; lia..|right].
  split; [congruence|]. by eapply str_ltb_trans.
Qed.

Lemma row_before_total x y : x.1 ≠ y.1 → row_before x y ∨ row_before y x.
Proof.
  intros Hne. unfold row_before.
  destruct (Z.lt_trichotomy x.2 y.2) as [?|[?|?]]; [right; by left| |left; by left].
  destruct (str_ltb_total _ _ Hne); [left|right]; right; done.
Qed.

Lemma insert_item_perm x l : insert_item x l ≡ₚ x :: l.
Proof.
  induction l as [|y l IH]; simpl; [done|].
  destruct (key_ltb (sort_key y) (sort_key x)); [|done].
  by rewrite IH, Permutation_swap.
Qed.

Lemma sorted_by_key_perm l : sorted_by_key l ≡ₚ l.
Proof.
  induction l as [|x l IH]; simpl; [done|].
  by rewrite insert_item_perm, IH.
Qed.

Lemma insert_item_sorted x l :
  x.1 ∉ l.*1 → Sorted row_before l → Sorted row_before (insert_item x l).
Proof.
  induction l as [|y l IH]; simpl; intros Hx Hl.
  - by repeat constructor.
  - apply not_elem_of_cons in Hx as [Hxy Hx].
    destruct (key_ltb (sort_key y) (sort_key x)) eqn:Hk.
    + apply key_ltb_row_before in Hk.
      apply Sorted_inv in Hl as [Hl Hhd]. constructor; [by apply IH|].
      destruct l as [|z l]; simpl.
      * by constructor.
      * destruct (key_ltb (sort_key z) (sort_key x)); constructor; [|done].
        by apply HdRel_inv in Hhd.
    + constructor; [done|]. constructor.
      destruct (row_before_total x y Hxy) as [?|H]; [done|].
      apply key_ltb_row_before in H. congruence.
Qed.

(** Sorting a list with distinct tokens puts every item strictly before
    the next one. *)
Lemma sorted_by_key_sorted l : NoDup l.*1 → Sorted row_before (sorted_by_key l).
Proof.
  induction l as [|x l IH]; simpl; intros Hnd; [constructor|].
  apply NoDup_cons in Hnd as [Hx Hnd].
  apply insert_item_sorted; [|by apply IH].
  by rewrite (sorted_by_key_perm l).
Qed.

Lemma Sorted_lookup {A} (R : A → A → Prop) (l : list A) i u v :
  Sorted R l → l !! i = Some u → l !! S i = Some v → R u v.
Proof.
  intros Hl. revert i. induction Hl as [|w l Hl IH Hhd]; intros i; [done|].
  destruct i as [|i]; simpl.
  - intros [= ->]. destruct Hhd as [|w' l' Hr]; simpl; [done|]. by intros [= ->].
  - apply IH.
Qed.

Lemma StronglySorted_lookup {A} (R : A → A → Prop) (l : list A) i j u v :
  StronglySorted R l → (i < j)%nat →
  l !! i = Some u → l !! j = Some v → R u v.
Proof.
  intros Hl. revert i j. induction Hl as [|w l Hl IH Hall]; intros i j Hlt; [done|].
  destruct i as [|i], j as [|j]; simpl; try lia.
  - intros [= ->] Hj. rewrite Forall_forall in Hall. apply Hall.
    by eapply list_elem_of_lookup_2.
  - apply IH. lia.
Qed.

Lemma sorted_keywords_sorted (counts : gmap pystr Z) :
  Sorted row_before (sorted_keywords counts).
Proof. apply sorted_by_key_sorted, NoDup_fst_map_to_list. Qed.

Lemma sorted_keywords_elem (counts : gmap pystr Z) t c :
  (t, c) ∈ sorted_keywords counts ↔ counts !! t = Some c.
Proof.
  unfold sorted_keywords. rewrite (sorted_by_key_perm (map_to_list counts)).
  apply elem_of_map_to_list.
Qed.

Lemma sorted_keywords_NoDup (counts : gmap pystr Z) :
  NoDup (sorted_keywords counts).*1.
Proof.
  unfold sorted_keywords. rewrite (sorted_by_key_perm (map_to_list counts)).
  apply NoDup_fst_map_to_list.
Qed.

End report_order.

(** ** The percentage *)

Section percentage.

Local Open Scope Z_scope.

Lemma round_half_even_le n d K : 0 < d → n ≤ K * d → round_half_even n d ≤ K.
Proof.
  intros Hd Hn. unfold round_half_even.
  pose proof (Z.div_mod n d ltac:(lia)) as Hdm.
  pose proof (Z.mod_pos_bound n d Hd) as Hm.
  assert (n / d ≤ K) as Hq by (apply Z.div_le_upper_bound; lia).
  destruct (Z.compare_spec (2 * (n mod d)) d) as [He|Hl|Hg]; [|lia|].
  - destruct (Z.even (n / d)); [lia|]. nia.
  - nia.
Qed.

Lemma round_half_even_nonneg n d : 0 < d → 0 ≤ n → 0 ≤ round_half_even n d.
Proof.
  intros Hd Hn. unfold round_half_even.
  assert (0 ≤ n / d) by (apply Z.div_pos; lia).
  destruct (2 * (n mod d) ?= d); [destruct (Z.even (n / d))|..]; lia.
Qed.

Lemma floor_log2_ratio_le n d j :
  0 < n → 0 < d → 0 ≤ j → n ≤ 2 ^ j * d → floor_log2_ratio n d ≤ j.
Proof.
  intros Hn Hd Hj Hle. unfold floor_log2_ratio.
  assert (Z.log2 n ≤ j + Z.log2 d).
  { rewrite <- Z.log2_mul_pow2 by lia. apply Z.log2_le_mono. lia. }
  destruct (_ <? _); lia.
Qed.

(** A quotient of at most [c], for a whole number [c] up to 128, rounds to
    a binary64 number of at most [c]. *)
Lemma round_binary64_le n d c :
  0 ≤ n → 0 < d → 1 ≤ c ≤ 128 → n ≤ c * d →
  ∃ m e, round_binary64 n d = Some (m, e)
         ∧ e ≤ 0 ∧ 0 ≤ m ∧ m ≤ c * 2 ^ (- e).
Proof.
  intros Hn Hd Hc Hle. unfold round_binary64.
  destruct (Z.eqb_spec n 0) as [->|Hn0].
  { exists 0, 0. repeat split; try lia. }
  set (e := Z.max (floor_log2_ratio n d - 52) (- 1074)).
  assert (floor_log2_ratio n d ≤ 7) as Hfl.
  { apply floor_log2_ratio_le; try lia. change (2 ^ 7) with 128. nia. }
  assert (- 1074 ≤ e ≤ - 45) as He by (unfold e; lia).
  rewrite (Z.max_r 0 (- e)), (Z.max_l 0 e), Z.pow_0_r, Z.mul_1_r by lia.
  set (m := round_half_even (n * 2 ^ (- e)) d).
  assert (0 < 2 ^ (- e)) as Hp by (apply Z.pow_pos_nonneg; lia).
  assert (m ≤ c * 2 ^ (- e)) as Hm.
  { apply round_half_even_le; [done|]. nia. }
  assert (0 ≤ m) as Hm0 by (apply round_half_even_nonneg; nia).
  assert (m * 2 ^ (e + 1074) < 2 ^ 2098) as Hov.
  { assert (0 < 2 ^ (e + 1074)) by (apply Z.pow_pos_nonneg; lia).
    apply Z.le_lt_trans with (c * 2 ^ (- e) * 2 ^ (e + 1074)); [nia|].
    rewrite <- Z.mul_assoc, <- Z.pow_add_r by lia.
    replace (- e + (e + 1074)) with 1074 by lia.
    apply Z.le_lt_trans with (2 ^ 7 * 2 ^ 1074).
    - apply Z.mul_le_mono_nonneg_r; [apply Z.pow_nonneg; lia|].
      change (2 ^ 7) with 128. lia.
    - rewrite <- Z.pow_add_r by lia. apply Z.pow_lt_mono_r; lia. }
  apply Z.ltb_lt in Hov. rewrite Hov.
  exists m, e. repeat split; lia.
Qed.

(** As long as the bytes read do not exceed the size, the percentage is
    computed without an exception and lies between 0 and 100. *)
Lemma current_percent_of_bounded (x y : N) :
  (0 < y)%N → (x ≤ y)%N →
  ∃ p, current_percent_of x y = inr p ∧ 0 ≤ p ≤ 100.
Proof.
  intros Hy Hx. unfold current_percent_of, int_true_divide.
  destruct (Z.eqb_spec (Z.of_N y) 0) as [|_]; [lia|].
  destruct (round_binary64_le (Z.of_N x) (Z.of_N y) 1)
    as (m & e & -> & He & Hm0 & Hm); try lia.
  unfold float_mul_100.
  rewrite (Z.max_r 0 (- e)), (Z.max_l 0 e), Z.pow_0_r, Z.mul_1_r by lia.
  assert (0 < 2 ^ (- e)) as Hp by (apply Z.pow_pos_nonneg; lia).
  destruct (round_binary64_le (m * 100) (2 ^ (- e)) 100)
    as (m' & e' & -> & He' & Hm0' & Hm'); try lia.
  unfold float_to_int.
  rewrite (Z.max_r 0 (- e')), (Z.max_l 0 e'), Z.pow_0_r, Z.mul_1_r by lia.
  assert (0 < 2 ^ (- e')) as Hp' by (apply Z.pow_pos_nonneg; lia).
  eexists. split; [done|]. split.
  - apply Z.div_pos; lia.
  - apply Z.div_le_upper_bound; lia.
Qed.

(** With a size of zero the division raises. *)
Lemma current_percent_of_zero_size (x : N) :
  current_percent_of x 0 = inl ZeroDivisionError.
Proof. done. Qed.

End percentage.

(** ** The reading loop *)

Section reading_loop.

Implicit Types (st : loop_state) (ls : list pystr) (enc : encoding).

Lemma current_percent_of_raises x y e :
  current_percent_of x y = inl e → e = ZeroDivisionError ∨ e = OverflowError.
Proof.
  unfold current_percent_of, int_true_divide.
  destruct (_ =? _)%Z; [intros [= <-]; by left|].
  destruct (round_binary64 _ _) as [q|]; [|intros [= <-]; by right].
  unfold float_to_int. destruct (float_mul_100 q) as [[m e']|]; [done|].
  intros [= <-]. by right.
Qed.

(** What one iteration does when it does not raise: [p] is the percentage
    it computes. *)
Lemma loop_body_returns enc total st line st' :
  loop_body enc total st line = inr st' →
  ∃ p, current_percent_of (bytes_read st + encode_len enc line) total = inr p
    ∧ keyword_counts st' = process_tokens (keyword_counts st) (tokens line)
    ∧ bytes_read st' = (bytes_read st + encode_len enc line)%N
    ∧ ((last_percent st < p)%Z ∧ last_percent st' = p
        ∧ printed_so_far st' = printed_so_far st ++ [Reading p]
       ∨ (p ≤ last_percent st)%Z ∧ last_percent st' = last_percent st
        ∧ printed_so_far st' = printed_so_far st).
Proof.
  unfold loop_body. destruct (current_percent_of _ _) as [e|p]; [done|].
  intros [= <-]. exists p. simpl. repeat split.
  case_bool_decide; [left|right]; repeat split; lia.
Qed.

Lemma loop_body_raises enc total st line e :
  loop_body enc total st line = inl e →
  e = ZeroDivisionError ∨ e = OverflowError.
Proof.
  unfold loop_body. destruct (current_percent_of _ _) as [e'|p] eqn:Hp; [|done].
  intros [= <-]. by eapply current_percent_of_raises.
Qed.

(** The percentages the loop prints rise strictly, starting above
    [last_percent]; each is the percentage computed at the end of some
    line; the counter is updated with the tokens of the lines read. *)
Lemma read_loop_spec enc total ls at_end st st' r :
  read_loop enc total st ls at_end = (st', r) →
  ∃ inloop,
    printed_so_far st' = printed_so_far st ++ map Reading inloop
    ∧ Sorted Z.lt (last_percent st :: inloop)
    ∧ Forall (λ p, ∃ k, (k ≤ length ls)%nat ∧
        current_percent_of
          (bytes_read st + sum_N (map (encode_len enc) (take k ls))) total = inr p)
        inloop
    ∧ (r = None →
        at_end = None ∧
        keyword_counts st' = process_tokens (keyword_counts st) (concat (map tokens ls)))
    ∧ (∀ e, r = Some e →
        e = ZeroDivisionError ∨ e = OverflowError ∨ at_end = Some e).
Proof.
  revert st. induction ls as [|line ls IH]; intros st; simpl.
  - intros [= <- <-]. exists []. simpl. rewrite app_nil_r.
    split_and!; [done|by repeat constructor|constructor|done|].
    intros e ->. by right; right.
  - destruct (loop_body enc total st line) as [e|st1] eqn:Hbody.
    + intros [= <- <-]. exists []. simpl. rewrite app_nil_r.
      split_and!; [done|by repeat constructor|constructor|done|].
      intros e' [= <-]. apply loop_body_raises in Hbody. tauto.
    + intros Hloop. apply IH in Hloop as (inloop & Hout & Hsorted & Hall & Hok & Herr).
      apply loop_body_returns in Hbody as (p & Hp & Hcounts & Hbytes & Hemit).
      assert (Forall (λ p, ∃ k, (k ≤ S (length ls))%nat ∧
        current_percent_of
          (bytes_read st + sum_N (map (encode_len enc) (take k (line :: ls)))) total
        = inr p) inloop) as Hall'.
      { eapply Forall_impl; [exact Hall|]. intros q (k & Hk & Hq).
        exists (S k). split; [lia|]. simpl.
        by rewrite N.add_assoc, <- Hbytes. }
      assert (process_tokens (keyword_counts st) (tokens line ++ concat (map tokens ls))
              = process_tokens (keyword_counts st1) (concat (map tokens ls))) as Hfold.
      { unfold process_tokens. by rewrite foldl_app, Hcounts. }
      destruct Hemit as [(Hlt & Hlast & Hpr)|(Hle & Hlast & Hpr)].
      * exists (p :: inloop). rewrite Hout, Hpr, <- app_assoc. simpl.
        split; [done|]. split.
        { constructor; [by rewrite <- Hlast|]. by constructor. }
        split.
        { constructor; [|done]. exists 1%nat. split; [lia|]. simpl.
          destruct ls; simpl; by rewrite N.add_0_r. }
        split; [|done]. intros Hr. destruct (Hok Hr) as [-> ->]. by rewrite Hfold.
      * exists inloop. rewrite Hout, Hpr. split; [done|]. split.
        { by rewrite <- Hlast. }
        split; [done|]. split; [|done].
        intros Hr. destruct (Hok Hr) as [-> ->]. by rewrite Hfold.
Qed.

(** The loop runs to the end when the size is positive and the bytes
    counted stay within it. *)
Lemma read_loop_completes enc total ls st :
  (0 < total)%N →
  (bytes_read st + sum_N (map (encode_len enc) ls) ≤ total)%N →
  ∃ st', read_loop enc total st ls None = (st', None).
Proof.
  intros Htotal. revert st. induction ls as [|line ls IH]; intros st; simpl.
  - intros _. by eexists.
  - intros Hle.
    destruct (current_percent_of_bounded (bytes_read st + encode_len enc line) total)
      as (p & Hp & _); [done|lia|].
    destruct (loop_body enc total st line) as [e|st1] eqn:Hbody.
    + unfold loop_body in Hbody. by rewrite Hp in Hbody.
    + apply IH. apply loop_body_returns in Hbody as (_ & _ & _ & -> & _). lia.
Qed.

Lemma sum_N_take_le (l : list N) k : (sum_N (take k l) ≤ sum_N l)%N.
Proof.
  revert k. induction l as [|x l IH]; intros [|k]; simpl; try lia.
  specialize (IH k). lia.
Qed.

End reading_loop.

(** ** Regular files: the bytes counted stay within the size *)

Section regular_files.

Implicit Types (bs : list N) (s cur : pystr) (enc : encoding).

Lemma sum_N_app (l1 l2 : list N) : (sum_N (l1 ++ l2) = sum_N l1 + sum_N l2)%N.
Proof. induction l1 as [|x l1 IH]; simpl; lia. Qed.

Lemma sum_N_rev (l : list N) : sum_N (rev l) = sum_N l.
Proof.
  induction l as [|x l IH]; simpl; [done|]. rewrite sum_N_app. simpl. lia.
Qed.

(** The widths of the lines add up to the width of the text. *)
Lemma readlines_scan_width (w : N → N) cur s :
  (sum_N (map (λ l, sum_N (map w l)) (readlines_scan cur s))
   = sum_N (map w cur) + sum_N (map w s))%N.
Proof.
  revert cur. induction s as [|c s IH]; intros cur; simpl.
  - destruct cur as [|c cur]; simpl; [done|].
    rewrite map_app, sum_N_app, map_rev, sum_N_rev. simpl. lia.
  - destruct (c =? LF); simpl.
    + rewrite IH, map_app, sum_N_app, map_rev, sum_N_rev. simpl. lia.
    + rewrite IH. simpl. lia.
Qed.

Lemma translate_newlines_width (w : N → N) s :
  (w LF ≤ w CR)%N →
  (sum_N (map w (translate_newlines s)) ≤ sum_N (map w s))%N.
Proof.
  intros Hw.
  assert (∀ n s, (length s ≤ n)%nat →
    (sum_N (map w (translate_newlines s)) ≤ sum_N (map w s))%N) as H;
    [|by apply (H (length s))].
  clear s. induction n as [|n IH]; intros [|c s] Hlen; simpl in *; try lia.
  destruct (N.eqb_spec c CR) as [->|_].
  - destruct s as [|c' s]; simpl; [lia|].
    destruct (c' =? LF); simpl.
    + specialize (IH s). simpl in Hlen. lia.
    + specialize (IH (c' :: s)). simpl in *. lia.
  - specialize (IH s). simpl. lia.
Qed.

Lemma utf_8_width_bounds c :
  (utf_8_width c ≤ 4 ∧ (c < 0x10000 → utf_8_width c ≤ 3)
   ∧ (c < 0x800 → utf_8_width c ≤ 2) ∧ (c < 0x80 → utf_8_width c ≤ 1))%N.
Proof.
  unfold utf_8_width.
  destruct (N.ltb_spec c 0x80); [lia|].
  destruct (N.ltb_spec c 0x800); [lia|].
  destruct (_ && _); [lia|].
  destruct (N.ltb_spec c 0x10000); lia.
Qed.

Lemma is_continuation_bounds b : is_continuation b = true → (0x80 ≤ b ≤ 0xBF)%N.
Proof. unfold is_continuation. rewrite andb_true_iff, !N.leb_le. lia. Qed.

Lemma second_of_3_bounds b0 b1 : second_of_3 b0 b1 = true → (b1 ≤ 0xBF)%N.
Proof.
  unfold second_of_3, is_continuation.
  destruct (_ =? _); [|destruct (_ =? _)]; rewrite andb_true_iff, !N.leb_le; lia.
Qed.

(** Decoding never yields more than re-encoding gives back. *)
Lemma utf_8_decode_width bs :
  (sum_N (map utf_8_width (utf_8_decode bs)) ≤ N.of_nat (length bs))%N.
Proof.
  assert (∀ n bs, (length bs ≤ n)%nat →
    (sum_N (map utf_8_width (utf_8_decode bs)) ≤ N.of_nat (length bs))%N) as H;
    [|by apply (H (length bs))].
  clear bs. induction n as [|n IH]; intros [|b0 r0] Hlen; simpl in Hlen; try (simpl; lia).
  assert (∀ r, (length r ≤ length r0)%nat →
    (sum_N (map utf_8_width (utf_8_decode r)) ≤ N.of_nat (length r))%N) as IH'.
  { intros r Hr. apply IH. lia. }
  clear IH. cbn [utf_8_decode].
  destruct (N.ltb_spec b0 0x80) as [H80|H80].
  { cbn [map sum_N foldr length]. specialize (IH' r0 ltac:(lia)).
    pose proof (utf_8_width_bounds b0). unfold sum_N in *. lia. }
  destruct (N.ltb_spec b0 0xC2) as [HC2|HC2].
  { specialize (IH' r0 ltac:(lia)). cbn [length]. lia. }
  destruct (N.ltb_spec b0 0xE0) as [HE0|HE0].
  { destruct r0 as [|b1 r1]; [simpl; lia|].
    destruct (is_continuation b1) eqn:H1.
    - apply is_continuation_bounds in H1.
      specialize (IH' r1 ltac:(simpl; lia)).
      pose proof (utf_8_width_bounds ((b0 - 0xC0) * 0x40 + (b1 - 0x80))) as Hw.
      cbn [map sum_N foldr length] in *. unfold sum_N in *. lia.
    - specialize (IH' (b1 :: r1) ltac:(lia)). cbn [length] in *. lia. }
  destruct (N.ltb_spec b0 0xF0) as [HF0|HF0].
  { destruct r0 as [|b1 r1]; [simpl; lia|].
    destruct (second_of_3 b0 b1) eqn:H1.
    - apply second_of_3_bounds in H1.
      destruct r1 as [|b2 r2]; [simpl; lia|].
      destruct (is_continuation b2) eqn:H2.
      + apply is_continuation_bounds in H2.
        specialize (IH' r2 ltac:(simpl; lia)).
        pose proof (utf_8_width_bounds
          ((b0 - 0xE0) * 0x1000 + (b1 - 0x80) * 0x40 + (b2 - 0x80))) as Hw.
        cbn [map sum_N foldr length] in *. unfold sum_N in *. lia.
      + specialize (IH' (b2 :: r2) ltac:(simpl; lia)). cbn [length] in *. lia.
    - specialize (IH' (b1 :: r1) ltac:(lia)). cbn [length] in *. lia. }
  destruct (N.ltb_spec b0 0xF5) as [HF5|HF5].
  { destruct r0 as [|b1 r1]; [simpl; lia|].
    destruct (second_of_4 b0 b1) eqn:H1.
    - destruct r1 as [|b2 r2]; [simpl; lia|].
      destruct (is_continuation b2) eqn:H2.
      + destruct r2 as [|b3 r3]; [simpl; lia|].
        destruct (is_continuation b3) eqn:H3.
        * specialize (IH' r3 ltac:(simpl; lia)).
          pose proof (utf_8_width_bounds
            ((b0 - 0xF0) * 0x40000 + (b1 - 0x80) * 0x1000
             + (b2 - 0x80) * 0x40 + (b3 - 0x80))) as Hw.
          cbn [map sum_N foldr length] in *. unfold sum_N in *. lia.
        * specialize (IH' (b3 :: r3) ltac:(simpl; lia)). cbn [length] in *. lia.
      + specialize (IH' (b2 :: r2) ltac:(simpl; lia)). cbn [length] in *. lia.
    - specialize (IH' (b1 :: r1) ltac:(lia)). cbn [length] in *. lia. }
  specialize (IH' r0 ltac:(lia)). cbn [length]. lia.
Qed.

Lemma decode_width enc bs :
  enc ≠ utf_8_sig →
  (sum_N (map (char_width enc) (decode enc bs)) ≤ N.of_nat (length bs))%N.
Proof.
  intros Henc. destruct enc; try done; simpl.
  - apply utf_8_decode_width.
  - unfold sum_N. induction bs as [|b bs IH]; [simpl; lia|].
    rewrite length_cons, Nat2N.inj_succ. cbn [omap list_omap].
    destruct (cp1252_decode_byte b) as [c|]; [|lia].
    cbn [map foldr].
    assert (char_width windows_1252 c ≤ 1)%N
      by (unfold char_width; destruct (UCD.in_ranges _ _); lia).
    lia.
  - unfold sum_N. induction bs as [|b bs IH]; [simpl; lia|].
    rewrite length_cons, Nat2N.inj_succ. cbn [decode map foldr] in *.
    assert (char_width latin_1 b ≤ 1)%N
      by (unfold char_width; destruct (_ <? _); lia).
    lia.
Qed.

Lemma char_width_newlines enc : (char_width enc LF ≤ char_width enc CR)%N.
Proof. by destruct enc. Qed.

(** For every encoding but [utf-8-sig], the bytes the loop counts on a
    regular file never exceed the size of the file. *)
Lemma regular_file_bytes enc raw :
  enc ≠ utf_8_sig →
  (sum_N (map (encode_len enc) (lines (regular_file enc raw)))
   ≤ getsize (regular_file enc raw))%N.
Proof.
  intros Henc. simpl. unfold readlines.
  assert (∀ ls, sum_N (map (encode_len enc) ls)
                = sum_N (map (λ l, sum_N (map (char_width enc) l)) ls)) as ->.
  { intros ls. f_equal. apply map_ext. intros l. unfold encode_len.
    by destruct enc. }
  rewrite readlines_scan_width. simpl.
  etrans; [apply translate_newlines_width, char_width_newlines|].
  etrans; [by apply decode_width|]. by rewrite length_map.
Qed.

End regular_files.

(** ** The whole run *)

Section whole_run.

Implicit Types (file : input_file) (enc : encoding) (csv_error : option exn).

(** A report is written only when the loop ends without an exception; it
    then holds the sorted tally of the tokens of all lines, and the output
    is what the loop printed, the closing lines and the writing lines. *)
Lemma count_keywords_report file csv_error enc report :
  csv_file (count_keywords file csv_error enc) = Some report →
  csv_error = None
  ∧ report = Header :: map (λ item, Row item.1 item.2)
               (sorted_keywords
                  (process_tokens ∅ (concat (map tokens (lines file))))).
Proof.
  unfold count_keywords. destruct (path_exists file); [|done]. simpl.
  destruct (open_error file) as [e|].
  { destruct (is_FileNotFoundError e); done. }
  destruct (read_loop _ _ _ _ _) as [st [e|]] eqn:Hloop.
  { destruct (is_FileNotFoundError e); done. }
  apply read_loop_spec in Hloop as (_ & _ & _ & _ & Hok & _).
  destruct (Hok eq_refl) as [_ ->]. simpl.
  destruct csv_error; simpl; [done|]. by intros [= <-].
Qed.

Lemma report_rows (counts : gmap pystr Z) k c :
  Row k c ∈ Header :: map (λ item, Row item.1 item.2) (sorted_keywords counts)
  ↔ counts !! k = Some c.
Proof.
  rewrite elem_of_cons, list_elem_of_fmap, <- sorted_keywords_elem. split.
  - intros [?|([k' c'] & [= -> ->] & ?)]; done.
  - intros ?. right. by exists (k, c).
Qed.

Lemma report_lookup (counts : gmap pystr Z) i k c :
  (Header :: map (λ item, Row item.1 item.2) (sorted_keywords counts)) !! S i
  = Some (Row k c)
  ↔ sorted_keywords counts !! i = Some (k, c).
Proof.
  simpl. change (map ?f ?l) with (f <$> l). rewrite list_lookup_fmap.
  destruct (sorted_keywords counts !! i) as [[k' c']|]; simpl; [|done].
  split; by intros [= -> ->].
Qed.

(** The run when the reading ends without an exception. *)
Lemma count_keywords_completes file csv_error enc st :
  path_exists file = true → open_error file = None →
  read_loop enc (getsize file)
    {| keyword_counts := ∅; bytes_read := 0; last_percent := (-1)%Z;
       printed_so_far := [Analyzing_file] |} (lines file) (read_error file)
  = (st, None) →
  stdout (count_keywords file csv_error enc)
  = printed_so_far st ++ [Reading 100; File_reading_complete; Writing_results;
      match csv_error with None => CSV_created | Some e => Error_writing e end].
Proof.
  intros Hex Hop Hloop. unfold count_keywords. rewrite Hex, Hop. simpl.
  rewrite Hloop. destruct csv_error; simpl; by rewrite <- app_assoc.
Qed.

Lemma progress_app (o1 o2 : list printed) : progress (o1 ++ o2) = progress o1 ++ progress o2.
Proof. unfold progress. apply omap_app. Qed.

Lemma progress_readings (l : list Z) : progress (map Reading l) = l.
Proof. induction l as [|x l IH]; [done|]. unfold progress in *. simpl. by f_equal. Qed.



(** The run when the reading raises an exception other than
    [FileNotFoundError]. *)
Lemma count_keywords_read_error file csv_error enc st e :
  path_exists file = true → open_error file = None →
  read_loop enc (getsize file)
    {| keyword_counts := ∅; bytes_read := 0; last_percent := (-1)%Z;
       printed_so_far := [Analyzing_file] |} (lines file) (read_error file)
  = (st, Some e) →
  is_FileNotFoundError e = false →
  count_keywords file csv_error enc
  = {| stdout := printed_so_far st ++ [Error_reading e; Try_changing_encoding];
       csv_file := None |}.
Proof.
  intros Hex Hop Hloop He. unfold count_keywords. rewrite Hex, Hop. simpl.
  by rewrite Hloop, He.
Qed.

End whole_run.

(** * The claims *)

Section claims.

Implicit Types (file : input_file) (enc : encoding) (csv_error : option exn).

(** A row of the report is a token together with the number of times the
    loop counted it, which is positive. *)
Lemma report_row_tally file csv_error enc report k c :
  csv_file (count_keywords file csv_error enc) = Some report →
  Row k c ∈ report ↔ c = tally (emitted_tokens (lines file)) k ∧ (0 < c)%Z.
Proof.
  intros [_ ->]%count_keywords_report. rewrite report_rows.
  apply counts_tally_lookup.
  apply (process_tokens_tally ∅ []), counts_tally_empty.
Qed.

Lemma ascii_word_char c : c < 128 → is_word_char c = spec_word_char c.
Proof.
  intros Hc.
  assert (forallb (λ n, Bool.eqb (is_word_char (N.of_nat n))
                          (spec_word_char (N.of_nat n))) (seq 0 128) = true) as H
    by (vm_compute; reflexivity).
  rewrite forallb_forall in H. specialize (H (N.to_nat c)).
  rewrite N2Nat.id in H. apply Bool.eqb_prop, H, in_seq. lia.
Qed.

Lemma forallb_agree {A} (f g : A → bool) (l : list A) :
  (∀ x, In x l → f x = g x) → forallb f l = forallb g l.
Proof.
  induction l as [|x l IH]; intros H; simpl; [done|].
  rewrite (H x) by by left. rewrite IH; [done|]. intros y Hy. apply H. by right.
Qed.


(** C1. For the four-line input of the end-to-end scenario the report has,
    after the header, exactly the rows (name, 2), (color, 1), (enabled, 1),
    (size, 1), in this order. *)
Theorem end_to_end_scenario :
  lines (regular_file utf_8 scenario_raw) = scenario_lines
  ∧ csv_file (count_keywords_on scenario_raw None utf_8)
    = Some [ Header; Row (py "name") 2; Row (py "color") 1;
             Row (py "enabled") 1; Row (py "size") 1 ].
Proof. split; vm_compute; reflexivity. Qed.

(** C2, as stated, fails: the token [cafe], whose last letter is not in
    [A-Za-z0-9_], comes out of the cleaning of a line and is counted. *)
Lemma ascii_word_class_too_narrow :
  cafe ∈ tokens (cafe ++ py " = 1")
  ∧ ¬ (counted cafe = true
       ↔ spec_word_fullmatch cafe = true ∧ is_number cafe = false).
Proof.
  split.
  - apply (bool_decide_unpack _). vm_compute. exact I.
  - assert (counted cafe = true) as Hc by (vm_compute; reflexivity).
    assert (spec_word_fullmatch cafe = false) as Hs by (vm_compute; reflexivity).
    intros [H _]. destruct (H Hc) as [Hw _]. congruence.
Qed.

(** C2, amended. A token is counted as a keyword if and only if the whole
    token matches [\w+], a non-empty run of Unicode word characters
    (alphanumeric code points and the underscore), and is not a number
    for [is_number]; on ASCII tokens [\w+] is the class [A-Za-z0-9_]+. A
    token that is not counted leaves the counter as it is: it is neither
    split nor cleaned further. *)
Theorem keyword_iff_word_not_number (token : pystr) (counts : gmap pystr Z) :
  (counted token = true
   ↔ word_pattern_fullmatch token = true ∧ is_number token = false)
  ∧ (word_pattern_fullmatch token = true
     ↔ token ≠ [] ∧ Forall (λ c, Py_UNICODE_ISALNUM c = true ∨ c = UNDERSCORE) token)
  ∧ (is_ascii_str token = true →
     word_pattern_fullmatch token = spec_word_fullmatch token)
  ∧ process_token counts token
    = (if counted token then counter_incr token counts else counts).
Proof.
  split_and!.
  - unfold counted, branch_of. case_bool_decide as He.
    { subst. simpl. split; [done|by intros [? _]]. }
    case_bool_decide as Hop.
    { assert (word_pattern_fullmatch token = false) as ->.
      { repeat (apply elem_of_cons in Hop as [->|Hop]); try done.
        by apply elem_of_nil in Hop. }
      split; [done|by intros [? _]]. }
    destruct (is_number token), (word_pattern_fullmatch token);
      split; try done; by intros [? ?].
  - unfold word_pattern_fullmatch. destruct token as [|c token].
    { split; [done|by intros [? _]]. }
    rewrite forallb_forall, Forall_forall. split.
    + intros H. split; [done|]. intros x Hx%list_elem_of_In.
      apply H in Hx. unfold is_word_char in Hx.
      by rewrite orb_true_iff, N.eqb_eq in Hx.
    + intros [_ H] x Hx%list_elem_of_In. unfold is_word_char.
      rewrite orb_true_iff, N.eqb_eq. by apply H.
  - intros Hascii. unfold word_pattern_fullmatch, spec_word_fullmatch.
    destruct token as [|c token]; [done|].
    unfold is_ascii_str in Hascii. rewrite forallb_forall in Hascii.
    apply forallb_agree. intros x Hx. apply ascii_word_char.
    by apply N.ltb_lt, Hascii.
  - unfold process_token, counted. by destruct (branch_of token).
Qed.




(** C4. Comment removal comes before quoted-string removal. On a line
    [before # after], where [before] has no [#], everything from the [#]
    on is discarded and the cleaning sees [before] alone, also when the
    [#] stands inside a quoted string, whose opening quote is then left
    without its closing one and stays. Only then is each quoted substring
    of what remains replaced by one space. A line without [#] is kept
    whole by the comment removal. *)
Theorem comment_cut_before_quotes (before after : pystr) :
  HASH ∉ before →
  split_hash_0 (before ++ HASH :: after) = before
  ∧ split_hash_0 before = before
  ∧ clean_line before = replace_operators (quoted_string_pattern_sub before)
  ∧ clean_line (before ++ HASH :: after)
    = replace_operators (quoted_string_pattern_sub before)
  ∧ tokens (before ++ HASH :: after) = tokens before
  ∧ (∀ a q, before = a ++ QUOTE :: q → QUOTE ∉ a → QUOTE ∉ q →
     clean_line (before ++ HASH :: after) = replace_operators (a ++ QUOTE :: q))
  ∧ (∀ a q r, before = a ++ QUOTE :: q ++ QUOTE :: r → QUOTE ∉ a → QUOTE ∉ q →
     clean_line (before ++ HASH :: after)
     = replace_operators (a ++ SPACE :: quoted_string_pattern_sub r)).
Proof.
  intros Hb.
  assert (clean_line (before ++ HASH :: after)
          = replace_operators (quoted_string_pattern_sub before)) as Hclean.
  { unfold clean_line. by rewrite split_hash_0_prefix. }
  split_and!.
  - by apply split_hash_0_prefix.
  - by apply split_hash_0_whole.
  - unfold clean_line. by rewrite split_hash_0_whole.
  - done.
  - unfold tokens. rewrite Hclean. unfold clean_line.
    by rewrite split_hash_0_whole.
  - intros a q -> Ha Hq. by rewrite Hclean, quoted_sub_open.
  - intros a q r -> Ha Hq. by rewrite Hclean, quoted_sub_match.
Qed.

Lemma comment_cut_before_quotes_witness :
  (HASH ∉ hash_in_quotes_before)
  ∧ tokens (hash_in_quotes_before ++ HASH :: hash_in_quotes_after)
    = tokens hash_in_quotes_before.
Proof.
  assert (HASH ∉ hash_in_quotes_before) as H
    by (apply (bool_decide_unpack _); vm_compute; exact I).
  split; [exact H|].
  apply (comment_cut_before_quotes hash_in_quotes_before hash_in_quotes_after H).
Defined.

(** C5. In the report every row stands strictly before the next one in
    the order of the sort key: it has the larger count, or the same count
    and the smaller token in the lexicographic order of code points. The
    tokens of the rows are distinct, any two rows with distinct tokens are
    ordered one way or the other and never both, so every row stands
    strictly before every later row and no two rows compare equal. *)
Theorem report_rows_strictly_ordered (file : input_file)
    (csv_error : option exn) (enc : encoding) (report : list csv_row) :
  csv_file (count_keywords file csv_error enc) = Some report →
  (∀ i k1 c1 k2 c2,
     report !! i = Some (Row k1 c1) → report !! S i = Some (Row k2 c2) →
     (c2 < c1)%Z ∨ (c1 = c2 ∧ str_ltb k1 k2 = true))
  ∧ (∀ i j k c1 c2,
     report !! i = Some (Row k c1) → report !! j = Some (Row k c2) → i = j)
  ∧ (∀ i j k1 c1 k2 c2, (i < j)%nat →
     report !! i = Some (Row k1 c1) → report !! j = Some (Row k2 c2) →
     row_before (k1, c1) (k2, c2))
  ∧ (∀ x y : pystr * Z, x.1 ≠ y.1 → row_before x y ∨ row_before y x)
  ∧ (∀ x y : pystr * Z, row_before x y → ¬ row_before y x).
Proof.
  intros [_ ->]%count_keywords_report.
  set (counts := process_tokens ∅ (concat (map tokens (lines file)))).
  pose proof (sorted_keywords_sorted counts) as Hsorted.
  pose proof (sorted_keywords_NoDup counts) as Hnodup.
  assert (StronglySorted row_before (sorted_keywords counts)) as Hstrong.
  { apply Sorted_StronglySorted; [|done]. intros x y z. apply row_before_trans. }
  split_and!.
  - intros [|i] k1 c1 k2 c2 H1 H2; [done|].
    apply report_lookup in H1, H2.
    apply (Sorted_lookup _ _ _ _ _ Hsorted H1 H2).
  - intros [|i] [|j] k c1 c2 Hi Hj; try done. f_equal.
    apply report_lookup in Hi, Hj.
    apply (NoDup_lookup _ _ _ k Hnodup); rewrite list_lookup_fmap.
    + by rewrite Hi.
    + by rewrite Hj.
  - intros [|i] [|j] k1 c1 k2 c2 Hlt Hi Hj; try done.
    apply report_lookup in Hi, Hj.
    eapply (StronglySorted_lookup row_before); [done| |exact Hi|exact Hj]. lia.
  - intros x y. apply row_before_total.
  - intros x y Hxy Hyx. eapply row_before_irrefl, row_before_trans; done.
Qed.

Lemma report_rows_strictly_ordered_witness :
  csv_file (count_keywords_on scenario_raw None utf_8) = Some scenario_report
  ∧ (∀ i k1 c1 k2 c2,
       scenario_report !! i = Some (Row k1 c1) →
       scenario_report !! S i = Some (Row k2 c2) →
       (c2 < c1)%Z ∨ (c1 = c2 ∧ str_ltb k1 k2 = true)).
Proof.
  assert (csv_file (count_keywords_on scenario_raw None utf_8)
          = Some scenario_report) as H by (vm_compute; reflexivity).
  split; [exact H|].
  apply (report_rows_strictly_ordered
           (regular_file utf_8 scenario_raw) None utf_8 scenario_report H).
Defined.




(** C7. When the iteration over the input raises an exception after the
    existence check and the opening have passed, the run prints the read
    error and the hint at the encoding and writes no report: what the
    loop has counted is dropped. (The exception printed is the one the
    iteration raises, unless the division of the progress computation
    has raised before; the iteration does not raise [FileNotFoundError],
    which the program reports as a missing file.) *)
Theorem read_failure_writes_no_report (file : input_file)
    (csv_error : option exn) (enc : encoding) (e : exn) :
  path_exists file = true → open_error file = None →
  read_error file = Some e → is_FileNotFoundError e = false →
  ∃ inloop raised,
    count_keywords file csv_error enc
    = {| stdout := Analyzing_file :: map Reading inloop
                   ++ [Error_reading raised; Try_changing_encoding];
         csv_file := None |}
    ∧ (raised = e ∨ raised = ZeroDivisionError ∨ raised = OverflowError).
Proof.
  intros Hex Hop Hrd He.
  destruct (read_loop enc (getsize file)
    {| keyword_counts := ∅; bytes_read := 0; last_percent := (-1)%Z;
       printed_so_far := [Analyzing_file] |} (lines file) (read_error file))
    as [st r] eqn:Hloop.
  pose proof Hloop as Hspec.
  apply read_loop_spec in Hspec as (inloop & Hout & _ & _ & Hok & Herr).
  destruct r as [raised|]; [|destruct (Hok eq_refl); congruence].
  assert (raised = e ∨ raised = ZeroDivisionError ∨ raised = OverflowError) as Hr.
  { destruct (Herr raised eq_refl) as [?|[?|?]]; [tauto..|]. left. congruence. }
  exists inloop, raised. split; [|done].
  rewrite (count_keywords_read_error _ _ _ _ _ Hex Hop Hloop), Hout; [done|].
  destruct Hr as [->|[->| ->]]; done.
Qed.

Lemma read_failure_writes_no_report_witness :
  ∃ inloop raised,
    count_keywords failing_file None utf_8
    = {| stdout := Analyzing_file :: map Reading inloop
                   ++ [Error_reading raised; Try_changing_encoding];
         csv_file := None |}
    ∧ (raised = OSError ∨ raised = ZeroDivisionError ∨ raised = OverflowError).
Proof.
  apply (read_failure_writes_no_report failing_file None utf_8 OSError);
    reflexivity.
Defined.

(** A file whose size is zero although the iteration yields a line (not a
    regular file): the division raises on the first line. *)
Lemma zero_size_with_a_line file csv_error enc line rest :
  path_exists file = true → open_error file = None →
  getsize file = 0 → lines file = line :: rest →
  count_keywords file csv_error enc
  = {| stdout := [Analyzing_file; Error_reading ZeroDivisionError;
                  Try_changing_encoding];
       csv_file := None |}.
Proof.
  intros Hex Hop Hsize Hlines. unfold count_keywords.
  rewrite Hex, Hop, Hsize, Hlines. reflexivity.
Qed.

(** C8. The division of the progress computation has no guard against a
    size of zero. On a file whose size is reported as zero while reading
    it yields a line, the first pass of the loop divides by zero: the
    handler of read errors catches the exception, the run prints the read
    error with the hint at the encoding, prints no percentage at all, not
    the closing 100 either, and writes no report. *)
Theorem zero_size_division_raises :
  path_exists zero_size_file = true ∧ getsize zero_size_file = 0
  ∧ lines zero_size_file = [py "name = x" ++ [LF]]
  ∧ current_percent_of (encode_len utf_8 (py "name = x" ++ [LF]))
                       (getsize zero_size_file)
    = inl ZeroDivisionError
  ∧ count_keywords zero_size_file None utf_8
    = {| stdout := [Analyzing_file; Error_reading ZeroDivisionError;
                    Try_changing_encoding];
         csv_file := None |}
  ∧ progress (stdout (count_keywords zero_size_file None utf_8)) = [].
Proof.
  assert (count_keywords zero_size_file None utf_8
    = {| stdout := [Analyzing_file; Error_reading ZeroDivisionError;
                    Try_changing_encoding];
         csv_file := None |}) as Hrun
    by (by apply (zero_size_with_a_line zero_size_file None utf_8
                    (py "name = x" ++ [LF]) [])).
  split_and!; [done|done|done|done|exact Hrun|].
  by rewrite Hrun.
Qed.

(** C9. Every row of the report has a strictly positive count, the number
    of times the loop counted its token; a token has a row if and only if
    the loop counted it at least once, that is, it is a token of some
    line that reaches the counting branch. *)
Theorem report_counts_positive (file : input_file)
    (csv_error : option exn) (enc : encoding) (report : list csv_row) :
  csv_file (count_keywords file csv_error enc) = Some report →
  (∀ k c, Row k c ∈ report →
     (0 < c)%Z ∧ c = tally (emitted_tokens (lines file)) k)
  ∧ (∀ k, (∃ c, Row k c ∈ report) ↔ k ∈ emitted_tokens (lines file))
  ∧ (∀ k, k ∈ emitted_tokens (lines file)
     ↔ counted k = true ∧ ∃ line, line ∈ lines file ∧ k ∈ tokens line).
Proof.
  intros Hrep. split_and!.
  - intros k c Hrow. apply (report_row_tally _ _ _ _ _ _ Hrep) in Hrow. tauto.
  - intros k. rewrite <- tally_positive_elem. split.
    + intros [c Hrow]. apply (report_row_tally _ _ _ _ _ _ Hrep) in Hrow as [-> ?].
      done.
    + intros Hpos. eexists. by apply (report_row_tally _ _ _ _ _ _ Hrep).
  - intros k. unfold emitted_tokens. rewrite emitted_elem, list_elem_of_In, in_concat.
    split.
    + intros [(toks & (line & <- & Hline)%in_map_iff & Hk) Hc]. split; [done|].
      exists line. by rewrite !list_elem_of_In.
    + intros [Hc (line & Hline & Hk)]. split; [|done].
      exists (tokens line). split; [|by apply list_elem_of_In].
      apply in_map. by apply list_elem_of_In.
Qed.

Lemma report_counts_positive_witness :
  csv_file (count_keywords_on scenario_raw None utf_8) = Some scenario_report
  ∧ (∀ k c, Row k c ∈ scenario_report →
       (0 < c)%Z
       ∧ c = tally (emitted_tokens (lines (regular_file utf_8 scenario_raw))) k).
Proof.
  assert (csv_file (count_keywords_on scenario_raw None utf_8)
          = Some scenario_report) as H by (vm_compute; reflexivity).
  split; [exact H|].
  apply (report_counts_positive
           (regular_file utf_8 scenario_raw) None utf_8 scenario_report H).
Defined.

(** C10. After the comment removal, the replacement of quoted strings
    and of the structural operators and the split at white space, no
    token of a line is empty and none is [=], [{] or [}]; no token even
    holds one of these three characters or a white space. The two
    branches of the loop that skip empty tokens and operator tokens are
    never taken. *)
Theorem tokens_never_empty_nor_operators (line : pystr) :
  Forall (λ token,
      token ≠ [] ∧ (token ∉ operator_tokens)
      ∧ branch_of token ≠ Skip_empty ∧ branch_of token ≠ Skip_operator
      ∧ Forall (λ c, (c ∉ [ord "="; ord "{"; ord "}"])
                     ∧ Py_UNICODE_ISSPACE c = false) token)
    (tokens line).
Proof.
  apply Forall_forall. intros token Ht.
  apply str_split_elem in Ht as [Hne Hin].
  assert (Forall (λ c, (c ∉ [ord "="; ord "{"; ord "}"])
                       ∧ Py_UNICODE_ISSPACE c = false) token) as Hchars.
  { apply Forall_forall. intros c Hc. destruct (Hin c Hc) as [Hcl Hsp].
    split; [|done]. intros Hop. by apply (clean_line_no_operator line c). }
  assert (token ∉ operator_tokens) as Hop.
  { intros Hop. rewrite Forall_forall in Hchars.
    assert (∃ c, c ∈ [ord "="; ord "{"; ord "}"] ∧ c ∈ token) as (c & Hc & Hct).
    { repeat (apply elem_of_cons in Hop as [->|Hop]).
      - exists (ord "="). split; [by left|by left].
      - exists (ord "{"). split; [by right; left|by left].
      - exists (ord "}"). split; [by right; right; left|by left].
      - by apply elem_of_nil in Hop. }
    by destruct (Hchars c Hct). }
  split_and!; try done.
  - unfold branch_of. rewrite !bool_decide_false by done.
    by destruct (is_number token), (word_pattern_fullmatch token).
  - unfold branch_of. rewrite !bool_decide_false by done.
    by destruct (is_number token), (word_pattern_fullmatch token).
Qed.

End claims.

(** * Further properties of the program *)

(** ** The cleaning of a line *)

Section cleaning.

Implicit Types (s p r a q line : pystr) (c : N) (f : N → N).

Lemma split_hash_0_app p s : HASH ∉ p → split_hash_0 (p ++ s) = p ++ split_hash_0 s.
Proof.
  induction p as [|c p IH]; intros Hp; simpl; [done|].
  apply not_elem_of_cons in Hp as [Hc Hp].
  destruct (N.eqb_spec c HASH) as [->|_]; [done|]. by rewrite IH.
Qed.

Lemma split_hash_0_cons c s : c ≠ HASH → split_hash_0 (c :: s) = c :: split_hash_0 s.
Proof. intros Hc. simpl. by destruct (N.eqb_spec c HASH). Qed.

Lemma replace_operators_map s : replace_operators s = map operator_to_space s.
Proof.
  unfold replace_operators, str_replace. rewrite !map_map.
  apply map_ext. intros c. unfold operator_to_space.
  destruct (N.eqb_spec c (ord "=")) as [->|H1]; [done|].
  destruct (N.eqb_spec c (ord "{")) as [->|H2]; [done|].
  destruct (N.eqb_spec c (ord "}")) as [->|H3]; [done|].
  rewrite bool_decide_false; [done|].
  rewrite !elem_of_cons, elem_of_nil. tauto.
Qed.

Lemma operator_to_space_idemp c : operator_to_space (operator_to_space c) = operator_to_space c.
Proof. unfold operator_to_space. by repeat case_bool_decide. Qed.

Lemma operator_to_space_keeps c x :
  x ∉ [SPACE; ord "="; ord "{"; ord "}"] → operator_to_space c = x ↔ c = x.
Proof.
  intros Hx. unfold operator_to_space. case_bool_decide as Hc; [|done].
  split; intros <-.
  - exfalso. apply Hx. by left.
  - exfalso. apply Hx. by right.
Qed.

(** A map over the characters that keeps [#] apart goes through the
    comment removal; one that keeps the quote apart and the space fixed
    goes through the replacement of quoted strings. *)
Lemma split_hash_0_map f s :
  (∀ c, f c = HASH ↔ c = HASH) → split_hash_0 (map f s) = map f (split_hash_0 s).
Proof.
  intros Hf. induction s as [|c s IH]; simpl; [done|].
  destruct (N.eqb_spec c HASH) as [->|Hc].
  - by rewrite (proj2 (Hf HASH) eq_refl), N.eqb_refl.
  - destruct (N.eqb_spec (f c) HASH) as [He|_]; [destruct Hc; by apply Hf|].
    by rewrite IH.
Qed.

Lemma quoted_sub_scan_map f (open : option pystr) s :
  (∀ c, f c = QUOTE ↔ c = QUOTE) → f SPACE = SPACE →
  quoted_sub_scan (option_map (map f) open) (map f s)
  = map f (quoted_sub_scan open s).
Proof.
  intros Hf Hsp. revert open. induction s as [|c s IH]; intros [buf|]; simpl.
  - rewrite <- map_rev. by rewrite (proj2 (Hf QUOTE) eq_refl).
  - done.
  - destruct (N.eqb_spec c QUOTE) as [->|Hc].
    + rewrite (proj2 (Hf QUOTE) eq_refl), N.eqb_refl. simpl.
      rewrite Hsp. f_equal. apply (IH None).
    + destruct (N.eqb_spec (f c) QUOTE) as [He|_]; [destruct Hc; by apply Hf|].
      apply (IH (Some (c :: buf))).
  - destruct (N.eqb_spec c QUOTE) as [->|Hc].
    + rewrite (proj2 (Hf QUOTE) eq_refl), N.eqb_refl. apply (IH (Some [])).
    + destruct (N.eqb_spec (f c) QUOTE) as [He|_]; [destruct Hc; by apply Hf|].
      simpl. f_equal. apply (IH None).
Qed.

Lemma clean_line_replace_operators line :
  clean_line (replace_operators line) = clean_line line.
Proof.
  unfold clean_line. rewrite !replace_operators_map.
  rewrite split_hash_0_map.
  2:{ intros c. apply operator_to_space_keeps. compute_done. }
  unfold quoted_string_pattern_sub.
  rewrite (quoted_sub_scan_map operator_to_space None).
  2:{ intros c. apply operator_to_space_keeps. compute_done. }
  2:{ done. }
  rewrite map_map. apply map_ext. intros c. apply operator_to_space_idemp.
Qed.

(** X1. The structural operators are separators and nothing else. A line
    and the line with every [=], [{] and [}] replaced by a space have the
    same tokens, so an operator anywhere in a line, also inside a quoted
    string or a comment, acts as a space does. *)
Theorem operators_act_as_spaces (line a r : pystr) (op : N) :
  op ∈ [ord "="; ord "{"; ord "}"] →
  tokens (replace_operators line) = tokens line
  ∧ tokens (a ++ op :: r) = tokens (a ++ SPACE :: r).
Proof.
  intros Hop. split.
  - unfold tokens. by rewrite clean_line_replace_operators.
  - unfold tokens.
    rewrite <- (clean_line_replace_operators (a ++ op :: r)),
            <- (clean_line_replace_operators (a ++ SPACE :: r)).
    rewrite !replace_operators_map, !map_app. simpl.
    do 3 f_equal. unfold operator_to_space.
    rewrite bool_decide_true by done. by rewrite bool_decide_false by compute_done.
Qed.

Lemma operators_act_as_spaces_witness :
  ord "=" ∈ [ord "="; ord "{"; ord "}"]
  ∧ tokens (py "a" ++ ord "=" :: py "b") = tokens (py "a" ++ SPACE :: py "b").
Proof.
  assert (ord "=" ∈ [ord "="; ord "{"; ord "}"]) as H by compute_done.
  split; [exact H|].
  apply (operators_act_as_spaces [] (py "a") (py "b") (ord "=") H).
Defined.

(** X2. A quoted string is worth one space. When the text before the
    closing quote holds no [#], the line [a "q" r] is cleaned to what the
    line [a r], with a space for the string, is cleaned to, whatever [q]
    holds: words, numbers and operators inside the quotes give no token. *)
Theorem quoted_string_acts_as_space (a q r : pystr) :
  QUOTE ∉ a → QUOTE ∉ q → HASH ∉ a → HASH ∉ q →
  clean_line (a ++ QUOTE :: q ++ QUOTE :: r) = clean_line (a ++ SPACE :: r)
  ∧ tokens (a ++ QUOTE :: q ++ QUOTE :: r) = tokens (a ++ SPACE :: r).
Proof.
  intros Hqa Hqq Hha Hhq.
  assert (clean_line (a ++ QUOTE :: q ++ QUOTE :: r) = clean_line (a ++ SPACE :: r))
    as Hclean.
  { unfold clean_line. f_equal.
    rewrite (split_hash_0_app a), (split_hash_0_cons QUOTE),
      (split_hash_0_app q), (split_hash_0_cons QUOTE) by done.
    rewrite (split_hash_0_app a), (split_hash_0_cons SPACE) by done.
    rewrite quoted_sub_match by done.
    unfold quoted_string_pattern_sub.
    rewrite (quoted_sub_scan_outside a) by done. simpl. done. }
  split; [done|]. unfold tokens. by rewrite Hclean.
Qed.

Lemma quoted_string_acts_as_space_witness :
  (QUOTE ∉ py "name = ") ∧ (QUOTE ∉ py "size = 10 {")
  ∧ (HASH ∉ py "name = ") ∧ (HASH ∉ py "size = 10 {")
  ∧ tokens (py "name = " ++ QUOTE :: py "size = 10 {" ++ QUOTE :: py " x")
    = tokens (py "name = " ++ SPACE :: py " x").
Proof.
  assert (QUOTE ∉ py "name = ") as H1 by compute_done.
  assert (QUOTE ∉ py "size = 10 {") as H2 by compute_done.
  assert (HASH ∉ py "name = ") as H3 by compute_done.
  assert (HASH ∉ py "size = 10 {") as H4 by compute_done.
  split_and!; [done..|].
  apply (proj2 (quoted_string_acts_as_space
                  (py "name = ") (py "size = 10 {") (py " x") H1 H2 H3 H4)).
Defined.

End cleaning.

(** ** Words that [float] reads as numbers *)

Section float_words.

Implicit Types (s t r w p sg : pystr) (c : N).

(** Comparisons of character codes, turned into arithmetic. *)
Ltac code_arith :=
  unfold is_ascii_letter, literal_char, Py_ISDIGIT, is_sign, is_exp_mark,
    Py_ISSPACE, Py_TOLOWER, DOT, UNDERSCORE, SPACE in *;
  repeat match goal with
    | |- context [if ?b then _ else _] => destruct b eqn:?
    end;
  repeat first
    [ rewrite andb_true_iff in * | rewrite orb_true_iff in *
    | rewrite andb_false_iff in * | rewrite orb_false_iff in *
    | rewrite N.leb_le in * | rewrite N.leb_gt in * | rewrite N.eqb_eq in *
    | rewrite N.eqb_neq in * | rewrite N.ltb_lt in * | rewrite N.ltb_ge in * ];
  first [done | lia | intuition (subst; first [done | lia | auto])].

Lemma word_letter_facts c :
  word_letter c →
  (c <? 128) = true ∧ Py_ISSPACE c = false ∧ Py_ISDIGIT c = false
  ∧ is_sign c = false ∧ (c =? DOT) = false.
Proof. intros [Hc| ->]; [|done]. code_arith. Qed.

Lemma sign_facts c :
  is_sign c = true →
  (c <? 128) = true ∧ Py_ISSPACE c = false ∧ Py_ISDIGIT c = false
  ∧ (c =? UNDERSCORE) = false.
Proof. intros Hc. code_arith. Qed.

(** [case_insensitive_match s w] succeeds when [s] starts with a spelling
    of [w] in some letter case, and gives what follows it. *)
Lemma case_insensitive_match_spec s w r :
  case_insensitive_match s w = Some r
  ↔ ∃ p, s = p ++ r ∧ map Py_TOLOWER p = w.
Proof.
  revert s. induction w as [|x w IH]; intros s.
  - assert (case_insensitive_match s [] = Some s) as -> by by destruct s.
    split.
    + intros [= <-]. by exists [].
    + intros (p & -> & Hp). by apply map_eq_nil in Hp as ->.
  - destruct s as [|c s]; simpl.
    + split; [done|]. intros ([|c p] & Hs & Hp); done.
    + destruct (N.eqb_spec (Py_TOLOWER c) x) as [<-|Hc]; cbv iota.
      * rewrite IH. split.
        -- intros (p & -> & <-). by exists (c :: p).
        -- intros ([|c' p] & Hs & Hp); [done|]. simplify_eq/=. by exists p.
      * split; [done|]. intros ([|c' p] & Hs & Hp); [done|]. by simplify_eq/=.
Qed.

Lemma parse_inf_or_nan_words t :
  match t with c :: _ => is_sign c = false | [] => True end →
  parse_inf_or_nan_end t = Some [] ↔ map Py_TOLOWER t ∈ float_words.
Proof.
  intros Ht. unfold parse_inf_or_nan_end.
  assert (skip_sign t = t) as -> by (destruct t; simpl; [done|by rewrite Ht]).
  unfold float_words. rewrite !elem_of_cons, elem_of_nil.
  destruct (case_insensitive_match t (py "inf")) as [r|] eqn:Hinf.
  - apply case_insensitive_match_spec in Hinf as (p & -> & Hp).
    rewrite map_app, Hp.
    destruct (case_insensitive_match r (py "inity")) as [r'|] eqn:Hity.
    + apply case_insensitive_match_spec in Hity as (p' & -> & Hp').
      rewrite map_app, Hp'. split.
      * intros [= ->]. right; left. done.
      * intros [H|[H|[H|[]]]].
        -- apply (f_equal length) in H. rewrite !length_app in H. simpl in H.
           assert (r' = []) as -> by (destruct r'; simpl in *; [done|lia]). done.
        -- apply (app_inv_head (py "inf")) in H.
           change (py "inity" ++ map Py_TOLOWER r' = py "inity" ++ []) in H.
           apply app_inv_head in H. by apply map_eq_nil in H as ->.
        -- done.
    + split.
      * intros [= ->]. by left.
      * intros [H|[H|[H|[]]]].
        -- rewrite <- (app_nil_r (py "inf")) in H at 2.
           apply app_inv_head in H. by apply map_eq_nil in H as ->.
        -- apply (app_inv_head (py "inf")) in H.
           assert (case_insensitive_match r (py "inity") = Some []) as Hc; [|congruence].
           apply case_insensitive_match_spec. exists r. by rewrite app_nil_r.
        -- done.
  - split.
    + intros Hnan. apply case_insensitive_match_spec in Hnan as (p & Hp & Hl).
      rewrite app_nil_r in Hp. subst. by right; right; left.
    + intros [H|[H|[H|[]]]].
      * assert (case_insensitive_match t (py "inf") = Some []) as Hc; [|congruence].
        apply case_insensitive_match_spec. exists t. by rewrite app_nil_r.
      * assert (case_insensitive_match t (py "inf") = Some (drop 3 t)) as Hc;
          [|congruence].
        apply case_insensitive_match_spec. exists (take 3 t).
        split; [by rewrite take_drop|].
        by rewrite <- firstn_map, H.
      * apply case_insensitive_match_spec. exists t. by rewrite app_nil_r.
Qed.

Lemma strip_underscores_no_digit prev s :
  Py_ISDIGIT prev = false → Forall (λ c, Py_ISDIGIT c = false) s →
  UNDERSCORE ∈ s → strip_underscores prev s = None.
Proof.
  intros Hprev Hs. revert prev Hprev.
  induction Hs as [|c s Hc _ IH]; intros prev Hprev Hin; [by apply elem_of_nil in Hin|].
  simpl. destruct (N.eqb_spec c UNDERSCORE) as [->|Hne].
  - by rewrite Hprev.
  - apply elem_of_cons in Hin as [?|Hin]; [done|].
    rewrite Hc, andb_true_r. destruct (prev =? UNDERSCORE); [done|].
    by rewrite IH.
Qed.

(** X3. Among the words written with ASCII letters and underscores, with
    or without a sign in front, [is_number] holds exactly for [inf],
    [infinity] and [nan] in any letter case. A non-empty token of letters
    and underscores is therefore counted unless it is one of these three
    words, which the report never shows. *)
Theorem letter_words_numeric_iff_float_word (sg t : pystr) :
  spec_sign sg →
  Forall (λ c, is_ascii_letter c = true ∨ c = UNDERSCORE) t →
  (is_number (sg ++ t) = true ↔ map Py_TOLOWER t ∈ float_words)
  ∧ (t ≠ [] → (counted t = true ↔ map Py_TOLOWER t ∉ float_words)).
Proof.
  intros Hsg Ht.
  assert (∀ sg', spec_sign sg' →
    is_number (sg' ++ t) = true ↔ map Py_TOLOWER t ∈ float_words) as Hnum.
  { clear sg Hsg. intros sg Hsg.
    assert (Forall (λ c, is_sign c = true ∨ word_letter c) (sg ++ t)) as Hall.
    { apply Forall_app. split.
      - destruct Hsg as [ -> | [ -> | -> ] ]; repeat constructor.
      - eapply Forall_impl; [exact Ht|]. intros c Hc. by right. }
    assert (∀ c, is_sign c = true ∨ word_letter c →
      (c <? 128) = true ∧ Py_ISSPACE c = false ∧ Py_ISDIGIT c = false) as Hfacts.
    { intros c [Hc|Hc].
      - apply sign_facts in Hc. tauto.
      - apply word_letter_facts in Hc. tauto. }
    assert (match t with c :: _ => is_sign c = false | [] => True end) as Hhead.
    { destruct Ht as [|c t Hc _]; [done|]. apply word_letter_facts in Hc. tauto. }
    assert (skip_sign (sg ++ t) = t) as Hskip by by apply skip_sign_app.
    unfold is_number, float_accepts, TransformDecimalAndSpaceToASCII.
    assert (is_ascii_str (sg ++ t) = true) as ->.
    { apply forallb_forall. intros c Hc%list_elem_of_In.
      rewrite Forall_forall in Hall. by apply Hfacts, Hall. }
    assert (Forall (λ c, Py_ISSPACE c = false) (sg ++ t)) as Hsp.
    { eapply Forall_impl; [exact Hall|]. intros c Hc. by apply Hfacts. }
    rewrite lstrip_no_space by done.
    destruct (sg ++ t) as [|c0 x] eqn:Hx.
    { apply app_eq_nil in Hx as [-> ->]. split; [done|].
      unfold float_words. rewrite !elem_of_cons, elem_of_nil.
      intros [?|[?|[?|[]]]]; done. }
    rewrite <- Hx in *. rewrite rstrip_no_space by done.
    unfold string_to_number_with_underscores.
    destruct (existsb (λ c, c =? UNDERSCORE) (sg ++ t)) eqn:Hus.
    - apply existsb_exists in Hus as (u & Hu%list_elem_of_In & ->%N.eqb_eq).
      rewrite strip_underscores_no_digit; [|done| |done].
      2:{ eapply Forall_impl; [exact Hall|]. intros c Hc. by apply Hfacts. }
      split; [done|]. intros Hw. exfalso.
      assert (UNDERSCORE ∈ map Py_TOLOWER t) as Hin.
      { apply elem_of_app in Hu as [Hu|Hu].
        - destruct Hsg as [ -> | [ -> | -> ] ];
            repeat (apply elem_of_cons in Hu as [Hu|Hu]; [done|]);
            by apply elem_of_nil in Hu.
        - apply list_elem_of_In, (in_map Py_TOLOWER) in Hu.
          by apply list_elem_of_In in Hu. }
      unfold float_words in Hw. rewrite !elem_of_cons, elem_of_nil in Hw.
      destruct Hw as [Hw|[Hw|[Hw|[]]]]; rewrite Hw in Hin;
        revert Hin; compute_done.
    - unfold float_from_string_inner, ascii_strtod_end.
      assert (dg_strtod_end (sg ++ t) = None) as ->.
      { unfold dg_strtod_end. rewrite Hskip.
        destruct Ht as [|c t Hc _]; [done|].
        apply word_letter_facts in Hc as (_ & _ & Hd & _ & Hdot).
        unfold skip_fraction. cbn [skip_digits count_digits].
        by rewrite !Hd, Hdot. }
      rewrite <- (parse_inf_or_nan_words t) by done.
      unfold parse_inf_or_nan_end at 1. rewrite Hskip.
      unfold parse_inf_or_nan_end.
      assert (skip_sign t = t) as -> by (destruct t; simpl; [done|by rewrite Hhead]).
      by destruct (match case_insensitive_match t (py "inf") with
                   | Some r => _ | None => _ end) as [[|]|]. }
  split; [by apply Hnum|].
  intros Hne. rewrite <- (Hnum [] ltac:(by left)). simpl.
  assert (word_pattern_fullmatch t = true) as Hword.
  { unfold word_pattern_fullmatch. destruct t as [|c0 t0]; [done|].
    apply forallb_forall. intros c Hc%list_elem_of_In.
    rewrite Forall_forall in Ht. specialize (Ht c Hc).
    rewrite ascii_word_char.
    - unfold spec_word_char. destruct Ht as [Hl| ->]; [|done].
      unfold is_ascii_letter in Hl. by rewrite Hl.
    - apply word_letter_facts in Ht as [Hlt _]. by apply N.ltb_lt. }
  assert (t ∉ operator_tokens) as Hop.
  { intros Hop. rewrite Forall_forall in Ht.
    repeat (apply elem_of_cons in Hop as [->|Hop]);
      [| | |by apply elem_of_nil in Hop];
      (specialize (Ht _ ltac:(by left)); destruct Ht as [Hl|Hl]; revert Hl;
       compute_done). }
  unfold counted, branch_of. rewrite !bool_decide_false by done.
  rewrite Hword. by destruct (is_number t).
Qed.

Lemma letter_words_numeric_iff_float_word_witness :
  spec_sign [45]
  ∧ (is_number ([45] ++ py "Infinity") = true
     ↔ map Py_TOLOWER (py "Infinity") ∈ float_words).
Proof.
  assert (spec_sign [45]) as Hsg by (by right; right).
  split; [exact Hsg|].
  apply (letter_words_numeric_iff_float_word [45] (py "Infinity") Hsg).
  repeat constructor.
Defined.

End float_words.

(** ** Regular files: the reading never fails *)

Section reading_never_fails.

Implicit Types (bs : list N) (s cur : pystr) (enc : encoding).

Local Open Scope Z_scope.

(** A quotient of at most [c], for a whole number [c] up to [2^52], rounds
    to a binary64 number of at most [c]. *)
Lemma round_binary64_wide n d c :
  0 ≤ n → 0 < d → 1 ≤ c ≤ 2 ^ 52 → n ≤ c * d →
  ∃ m e, round_binary64 n d = Some (m, e)
         ∧ e ≤ 0 ∧ 0 ≤ m ∧ m ≤ c * 2 ^ (- e).
Proof.
  intros Hn Hd Hc Hle. unfold round_binary64.
  destruct (Z.eqb_spec n 0) as [->|Hn0].
  { exists 0, 0. repeat split; try lia. }
  set (e := Z.max (floor_log2_ratio n d - 52) (- 1074)).
  assert (floor_log2_ratio n d ≤ 52) as Hfl.
  { apply floor_log2_ratio_le; try lia.
    apply Z.le_trans with (c * d); [done|].
    apply Z.mul_le_mono_nonneg_r; lia. }
  assert (- 1074 ≤ e ≤ 0) as He by (unfold e; lia).
  rewrite (Z.max_r 0 (- e)), (Z.max_l 0 e), Z.pow_0_r, Z.mul_1_r by lia.
  set (m := round_half_even (n * 2 ^ (- e)) d).
  assert (0 < 2 ^ (- e)) as Hp by (apply Z.pow_pos_nonneg; lia).
  assert (m ≤ c * 2 ^ (- e)) as Hm.
  { apply round_half_even_le; [done|]. nia. }
  assert (0 ≤ m) as Hm0 by (apply round_half_even_nonneg; nia).
  assert (m * 2 ^ (e + 1074) < 2 ^ 2098) as Hov.
  { assert (0 < 2 ^ (e + 1074)) by (apply Z.pow_pos_nonneg; lia).
    apply Z.le_lt_trans with (c * 2 ^ (- e) * 2 ^ (e + 1074)); [nia|].
    rewrite <- Z.mul_assoc, <- Z.pow_add_r by lia.
    replace (- e + (e + 1074)) with 1074 by lia.
    apply Z.le_lt_trans with (2 ^ 52 * 2 ^ 1074).
    - apply Z.mul_le_mono_nonneg_r; [apply Z.pow_nonneg; lia|]. lia.
    - rewrite <- Z.pow_add_r by lia. apply Z.pow_lt_mono_r; lia. }
  apply Z.ltb_lt in Hov. rewrite Hov.
  exists m, e. repeat split; lia.
Qed.

(** As long as the bytes read stay within [c] times the size, the
    percentage is computed without an exception and is at most
    [100 * c]. *)
Lemma current_percent_of_within (x y : N) (c : Z) :
  (0 < y)%N → 1 ≤ c ≤ 2 ^ 40 → Z.of_N x ≤ c * Z.of_N y →
  ∃ p, current_percent_of x y = inr p ∧ 0 ≤ p ≤ 100 * c.
Proof.
  intros Hy Hc Hx. unfold current_percent_of, int_true_divide.
  destruct (Z.eqb_spec (Z.of_N y) 0) as [|_]; [lia|].
  assert (2 ^ 40 * 100 ≤ 2 ^ 52) as Hpow by (by vm_compute).
  destruct (round_binary64_wide (Z.of_N x) (Z.of_N y) c)
    as (m & e & -> & He & Hm0 & Hm); try lia.
  unfold float_mul_100.
  rewrite (Z.max_r 0 (- e)), (Z.max_l 0 e), Z.pow_0_r, Z.mul_1_r by lia.
  assert (0 < 2 ^ (- e)) as Hp by (apply Z.pow_pos_nonneg; lia).
  destruct (round_binary64_wide (m * 100) (2 ^ (- e)) (100 * c))
    as (m' & e' & -> & He' & Hm0' & Hm'); try lia.
  unfold float_to_int.
  rewrite (Z.max_r 0 (- e')), (Z.max_l 0 e'), Z.pow_0_r, Z.mul_1_r by lia.
  assert (0 < 2 ^ (- e')) as Hp' by (apply Z.pow_pos_nonneg; lia).
  eexists. split; [done|]. split.
  - apply Z.div_pos; lia.
  - apply Z.div_le_upper_bound; lia.
Qed.

Lemma read_loop_completes_wide enc total ls st (c : Z) :
  (0 < total)%N → 1 ≤ c ≤ 2 ^ 40 →
  Z.of_N (bytes_read st + sum_N (map (encode_len enc) ls)) ≤ c * Z.of_N total →
  ∃ st', read_loop enc total st ls None = (st', None).
Proof.
  intros Htotal Hc. revert st. induction ls as [|line ls IH]; intros st; simpl.
  - intros _. by eexists.
  - intros Hle.
    destruct (current_percent_of_within
                (bytes_read st + encode_len enc line) total c)
      as (p & Hp & _); [done|done|lia|].
    destruct (loop_body enc total st line) as [e|st1] eqn:Hbody.
    + unfold loop_body in Hbody. by rewrite Hp in Hbody.
    + apply IH. apply loop_body_returns in Hbody as (_ & _ & _ & -> & _). lia.
Qed.

Local Close Scope Z_scope.
Local Open Scope nat_scope.

Lemma readlines_scan_count cur s :
  length (readlines_scan cur s) ≤ length cur + length s.
Proof.
  revert cur. induction s as [|c s IH]; intros cur; simpl.
  - destruct cur; simpl; lia.
  - destruct (c =? LF)%N; simpl.
    + specialize (IH []). simpl in IH. lia.
    + specialize (IH (c :: cur)). simpl in IH. lia.
Qed.

Lemma translate_newlines_length s : length (translate_newlines s) ≤ length s.
Proof.
  assert (∀ l : pystr, sum_N (map (λ _, 1%N) l) = N.of_nat (length l)) as Hlen.
  { induction l as [|x l IH]; [done|]. cbn [map sum_N foldr length] in *.
    unfold sum_N in IH. lia. }
  pose proof (translate_newlines_width (λ _, 1%N) s ltac:(lia)) as H.
  rewrite !Hlen in H. lia.
Qed.

(** Decoding yields at most one character for each byte. *)
Lemma utf_8_decode_length bs : length (utf_8_decode bs) ≤ length bs.
Proof.
  assert (∀ n bs, length bs ≤ n → length (utf_8_decode bs) ≤ length bs) as H;
    [|by apply (H (length bs))].
  clear bs. induction n as [|n IH]; intros [|b0 r0] Hlen; simpl in Hlen;
    try (simpl; lia).
  assert (∀ r, length r ≤ length r0 → length (utf_8_decode r) ≤ length r) as IH'.
  { intros r Hr. apply IH. lia. }
  clear IH. cbn [utf_8_decode].
  repeat match goal with
  | |- context [if ?b then _ else _] => destruct b
  | |- context [match ?r with [] => _ | _ :: _ => _ end] =>
      is_var r; destruct r
  end;
  cbn [length];
  match goal with
  | |- context [utf_8_decode ?r] =>
      specialize (IH' r ltac:(cbn [length]; lia)); cbn [length] in *; lia
  | |- _ => lia
  end.
Qed.

Lemma utf_8_sig_decode_cases bs :
  (∃ rest, bs = [0xEF; 0xBB; 0xBF]%N ++ rest
           ∧ utf_8_sig_decode bs = utf_8_decode rest)
  ∨ utf_8_sig_decode bs = utf_8_decode bs.
Proof.
  unfold utf_8_sig_decode.
  repeat match goal with
  | |- context [match ?x with _ => _ end] => is_var x; destruct x; try (by right)
  end.
  left. by eexists.
Qed.

Lemma decode_length enc bs : length (decode enc bs) ≤ length bs.
Proof.
  destruct enc; cbn [decode].
  - apply utf_8_decode_length.
  - destruct (utf_8_sig_decode_cases bs) as [(rest & -> & ->)| ->].
    + pose proof (utf_8_decode_length rest). cbn [app length]. lia.
    + apply utf_8_decode_length.
  - induction bs as [|b bs IH]; [done|]. cbn [omap list_omap length].
    destruct (cp1252_decode_byte b); cbn [length]; lia.
  - done.
Qed.

Lemma regular_file_line_count enc (raw : list Byte.byte) :
  length (lines (regular_file enc raw)) ≤ length raw.
Proof.
  simpl. unfold readlines.
  etrans; [apply readlines_scan_count|]. simpl.
  etrans; [apply translate_newlines_length|].
  etrans; [apply decode_length|]. by rewrite length_map.
Qed.

Local Close Scope nat_scope.

Lemma utf_8_sig_decode_width bs :
  sum_N (map utf_8_width (utf_8_sig_decode bs)) ≤ N.of_nat (length bs).
Proof.
  destruct (utf_8_sig_decode_cases bs) as [(rest & -> & ->)| ->].
  - pose proof (utf_8_decode_width rest). simpl. lia.
  - apply utf_8_decode_width.
Qed.

(** The factor by which the bytes counted may exceed the size. *)
Lemma regular_file_bytes_factor enc (raw : list Byte.byte) :
  sum_N (map (encode_len enc) (lines (regular_file enc raw)))
  ≤ overcount enc * getsize (regular_file enc raw).
Proof.
  assert (enc = utf_8_sig ∨ enc ≠ utf_8_sig) as [->|Henc]
    by (destruct enc; (by left) || (by right)).
  - pose proof (regular_file_line_count utf_8_sig raw) as Hcount.
    simpl in *. unfold readlines in *.
    set (ls := readlines_scan [] _) in *.
    assert (sum_N (map (encode_len utf_8_sig) ls)
            = 3 * N.of_nat (length ls)
              + sum_N (map (λ l, sum_N (map utf_8_width l)) ls)) as ->.
    { clear. induction ls as [|l ls IH]; [done|].
      cbn [map length]. rewrite Nat2N.inj_succ.
      change (sum_N (?x :: ?r)) with (x + sum_N r). rewrite IH.
      unfold encode_len. change (char_width utf_8_sig) with utf_8_width. lia. }
    unfold ls in *. clear ls. rewrite readlines_scan_width. simpl.
    pose proof (translate_newlines_width utf_8_width
      (utf_8_sig_decode (map Byte.to_N raw)) ltac:(done)) as Hw.
    pose proof (utf_8_sig_decode_width (map Byte.to_N raw)) as Hd.
    rewrite length_map in Hd. unfold overcount. lia.
  - pose proof (regular_file_bytes enc raw Henc). unfold overcount.
    destruct enc; try done; lia.
Qed.

Lemma count_keywords_after_loop file csv_error enc st :
  path_exists file = true → open_error file = None →
  read_loop enc (getsize file)
    {| keyword_counts := ∅; bytes_read := 0; last_percent := (-1)%Z;
       printed_so_far := [Analyzing_file] |} (lines file) (read_error file)
  = (st, None) →
  csv_file (count_keywords file csv_error enc)
  = match csv_error with
    | None => Some (Header :: map (λ item, Row item.1 item.2)
                                  (sorted_keywords (keyword_counts st)))
    | Some _ => None
    end.
Proof.
  intros Hex Hop Hloop. unfold count_keywords. rewrite Hex, Hop. simpl.
  rewrite Hloop. by destruct csv_error.
Qed.

(** X4. On a file that holds any bytes and does not change during the run,
    with any of the four encodings, the reading never raises: the run
    prints the percentages of the loop, which rise strictly from 0 or
    more, then 100 and the end of the reading, and goes on to write the
    report. The percentages of the loop stay within 100, except with
    [utf-8-sig], where the three bytes counted for every line can take
    them up to 400. The report is written unless the output file cannot
    be opened. *)
Theorem regular_file_read_never_fails (raw : list Byte.byte)
    (csv_error : option exn) (enc : encoding) :
  ∃ inloop,
    stdout (count_keywords_on raw csv_error enc)
    = Analyzing_file :: map Reading inloop
      ++ [Reading 100; File_reading_complete; Writing_results;
          match csv_error with None => CSV_created | Some e => Error_writing e end]
    ∧ Sorted Z.lt inloop
    ∧ Forall (λ p, (0 ≤ p ≤ 100 * Z.of_N (overcount enc))%Z) inloop
    ∧ (is_Some (csv_file (count_keywords_on raw csv_error enc))
       ↔ csv_error = None).
Proof.
  unfold count_keywords_on.
  set (file := regular_file enc raw).
  set (st0 := {| keyword_counts := ∅; bytes_read := 0; last_percent := (-1)%Z;
                 printed_so_far := [Analyzing_file] |}).
  pose proof (regular_file_bytes_factor enc raw) as Hbytes. fold file in Hbytes.
  assert (1 ≤ Z.of_N (overcount enc) ≤ 2 ^ 40)%Z as Hc.
  { assert (2 ^ 40 = 1099511627776)%Z as -> by (by vm_compute).
    unfold overcount. destruct enc; lia. }
  assert (∃ st, read_loop enc (getsize file) st0 (lines file) None = (st, None))
    as [st Hloop].
  { destruct (N.eq_dec (getsize file) 0) as [Hz|Hnz].
    - pose proof (regular_file_line_count enc raw) as Hcount. fold file in Hcount.
      assert (length raw = 0%nat) as Hraw by (unfold file in Hz; simpl in Hz; lia).
      rewrite Hraw in Hcount.
      destruct (lines file) as [|l ls]; [by eexists|simpl in Hcount; lia].
    - apply (read_loop_completes_wide enc (getsize file) (lines file) st0
               (Z.of_N (overcount enc))); [lia|done|].
      unfold st0. cbn [bytes_read]. lia. }
  pose proof Hloop as Hspec.
  apply read_loop_spec in Hspec as (inloop & Hout & Hsorted & Hall & _ & _).
  exists inloop. split_and!.
  - rewrite (count_keywords_completes file csv_error enc st); [|done|done|done].
    by rewrite Hout.
  - by apply Sorted_inv in Hsorted as [? _].
  - assert (Forall (λ p, (-1 < p)%Z) inloop) as Hpos.
    { apply Sorted_StronglySorted in Hsorted; [|intros ???; lia].
      by apply StronglySorted_inv in Hsorted as [_ ?]. }
    apply Forall_and. split.
    + eapply Forall_impl; [exact Hpos|]. simpl. lia.
    + eapply Forall_impl; [exact Hall|]. intros p (k & Hk & Hp).
      unfold st0 in Hp. cbn [bytes_read] in Hp. rewrite N.add_0_l in Hp.
      destruct (N.eq_dec (getsize file) 0) as [Hz|Hnz].
      { rewrite Hz in Hp. by rewrite current_percent_of_zero_size in Hp. }
      destruct (current_percent_of_within
        (sum_N (map (encode_len enc) (take k (lines file)))) (getsize file)
        (Z.of_N (overcount enc))) as (p' & Hp' & Hb); [lia|done| |].
      * pose proof (sum_N_take_le (map (encode_len enc) (lines file)) k) as Ht.
        rewrite firstn_map in Ht. lia.
      * assert (p = p') as -> by congruence. lia.
  - rewrite (count_keywords_after_loop file csv_error enc st); [|done|done|done].
    destruct csv_error; split;
      first [done | by intros [? ?] | by intros _; eexists].
Qed.

End reading_never_fails.

(** ** The messages of a run, whatever the file system does *)

Section messages.

Implicit Types (file : input_file) (enc : encoding) (csv_error : option exn).

(** A run on a path that exists prints the opening line, the percentages
    of the loop and one of four endings. *)
Lemma count_keywords_shape file csv_error enc :
  path_exists file = true →
  ∃ inloop tail,
    stdout (count_keywords file csv_error enc)
    = Analyzing_file :: map Reading inloop ++ tail
    ∧ Sorted Z.lt ((-1)%Z :: inloop)
    ∧ ((tail = [Error_file_not_found]
        ∧ csv_file (count_keywords file csv_error enc) = None)
       ∨ (∃ e, tail = [Error_reading e; Try_changing_encoding]
          ∧ csv_file (count_keywords file csv_error enc) = None)
       ∨ (∃ e, tail = [Reading 100; File_reading_complete; Writing_results;
                       Error_writing e]
          ∧ csv_file (count_keywords file csv_error enc) = None)
       ∨ (tail = [Reading 100; File_reading_complete; Writing_results;
                  CSV_created]
          ∧ is_Some (csv_file (count_keywords file csv_error enc)))).
Proof.
  intros Hex. unfold count_keywords. rewrite Hex. cbn [negb].
  destruct (open_error file) as [e|].
  - exists [], (if is_FileNotFoundError e then [Error_file_not_found]
                else [Error_reading e; Try_changing_encoding]).
    destruct (is_FileNotFoundError e); cbn;
      (split_and!; [done|by repeat constructor|]).
    + by left.
    + right; left. by exists e.
  - destruct (read_loop _ _ _ _ _) as [st r] eqn:Hloop.
    apply read_loop_spec in Hloop as (inloop & Hout & Hsorted & _).
    cbn [printed_so_far last_percent] in Hout, Hsorted.
    exists inloop. destruct r as [e|].
    + exists (if is_FileNotFoundError e then [Error_file_not_found]
              else [Error_reading e; Try_changing_encoding]).
      destruct (is_FileNotFoundError e); cbn [stdout csv_file]; rewrite Hout;
        (split_and!; [done|done|]).
      * by left.
      * right; left. by exists e.
    + destruct csv_error as [e|]; cbn [stdout csv_file]; rewrite Hout.
      * eexists. split_and!; [by rewrite <- !app_assoc|done|].
        right; right; left. by exists e.
      * eexists. split_and!; [by rewrite <- !app_assoc|done|].
        right; right; right. split; [done|by eexists].
Qed.

Lemma readings_no_error (l : list Z) :
  ¬ Exists (λ p, is_error_message p = true) (map Reading l).
Proof.
  induction l as [|x l IH]; simpl; intros H; inversion H; subst; done.
Qed.

(** When the size query answers, an error message and the report file
    exclude each other: the run writes no report exactly when it prints
    one of the three error messages, and writes one exactly when its last
    line is the success message. The writing is announced only after the
    closing 100 and the end of the reading were printed. *)
Lemma count_keywords_messages (file : input_file)
    (csv_error : option exn) (enc : encoding) :
  (csv_file (count_keywords file csv_error enc) = None
   ↔ Exists (λ p, is_error_message p = true)
            (stdout (count_keywords file csv_error enc)))
  ∧ (is_Some (csv_file (count_keywords file csv_error enc))
     ↔ last (stdout (count_keywords file csv_error enc)) = Some CSV_created)
  ∧ (Writing_results ∈ stdout (count_keywords file csv_error enc) →
     ∃ before after,
       stdout (count_keywords file csv_error enc)
       = before ++ [Reading 100; File_reading_complete; Writing_results] ++ after).
Proof.
  destruct (path_exists file) eqn:Hex.
  2:{ unfold count_keywords. rewrite Hex. cbn. split_and!.
      - split; [intros _; by left|done].
      - split; [by intros [? ?]|done].
      - intros H. apply list_elem_of_singleton in H. done. }
  destruct (count_keywords_shape file csv_error enc Hex)
    as (inloop & tail & -> & _ & Htail).
  assert (∀ l : list printed,
    Exists (λ p, is_error_message p = true) (Analyzing_file :: map Reading inloop ++ l)
    ↔ Exists (λ p, is_error_message p = true) l) as Hex_iff.
  { intros l. rewrite Exists_cons, Exists_app. split; [|tauto].
    intros [?|[H|?]]; [done| |done]. by apply readings_no_error in H. }
  assert (∀ l : list printed, Writing_results ∉ Analyzing_file :: map Reading inloop)
    as Hnw.
  { intros _ [?|H]%elem_of_cons; [done|].
    apply list_elem_of_fmap in H as (? & ? & ?). done. }
  rewrite Hex_iff.
  change (Analyzing_file :: map Reading inloop ++ tail)
    with ((Analyzing_file :: map Reading inloop) ++ tail).
  destruct Htail as [[-> Hcsv]|[(e & -> & Hcsv)|[(e & -> & Hcsv)|[-> Hcsv]]]];
    rewrite last_app_cons; cbn [last].
  - rewrite Hcsv. split_and!.
    + split; [intros _; by left|done].
    + split; [by intros [? ?]|done].
    + intros [H|H]%elem_of_app; [by apply (Hnw []) in H|].
      apply list_elem_of_singleton in H. done.
  - rewrite Hcsv. split_and!.
    + split; [intros _; by left|done].
    + split; [by intros [? ?]|done].
    + intros [H|H]%elem_of_app; [by apply (Hnw []) in H|].
      repeat (apply elem_of_cons in H as [H|H]; [done|]).
      by apply elem_of_nil in H.
  - rewrite Hcsv. split_and!.
    + split; [intros _; by do 3 right; left|done].
    + split; [by intros [? ?]|done].
    + intros _. by exists (Analyzing_file :: map Reading inloop), [Error_writing e].
  - destruct Hcsv as [report Hcsv]. rewrite Hcsv. split_and!.
    + split; [done|]. intros H.
      repeat (apply Exists_cons in H as [H|H]; [done|]).
      by apply Exists_nil in H.
    + split; [done|by eexists].
    + intros _. by exists (Analyzing_file :: map Reading inloop), [CSV_created].
Qed.

(** X5. A call writes the report exactly when its last printed line is
    the success message. It writes none exactly when it prints one of the
    three error messages or the size query raises: that exception comes
    before the [try] and leaves [count_keywords] uncaught, after the
    opening line and with no error message printed. The writing is
    announced only after the closing 100 and the end of the reading were
    printed. *)
Theorem report_written_iff_success_message (file : input_file)
    (getsize_error csv_error : option exn) (enc : encoding) :
  (is_Some (csv_file (effects (count_keywords_call file getsize_error csv_error enc)))
   ↔ last (stdout (effects (count_keywords_call file getsize_error csv_error enc)))
     = Some CSV_created)
  ∧ (csv_file (effects (count_keywords_call file getsize_error csv_error enc)) = None
     ↔ Exists (λ p, is_error_message p = true)
              (stdout (effects (count_keywords_call file getsize_error csv_error enc)))
       ∨ ∃ e out, count_keywords_call file getsize_error csv_error enc = Raises e out)
  ∧ (∀ e out,
       count_keywords_call file getsize_error csv_error enc = Raises e out
       ↔ path_exists file = true ∧ getsize_error = Some e
         ∧ out = {| stdout := [Analyzing_file]; csv_file := None |})
  ∧ (Writing_results
       ∈ stdout (effects (count_keywords_call file getsize_error csv_error enc)) →
     ∃ before after,
       stdout (effects (count_keywords_call file getsize_error csv_error enc))
       = before ++ [Reading 100; File_reading_complete; Writing_results] ++ after).
Proof.
  destruct (count_keywords_messages file csv_error enc) as (Hnone & Hsome & Hwr).
  unfold count_keywords_call.
  destruct (path_exists file) eqn:Hex; cbn [negb].
  - destruct getsize_error as [e|]; cbn [effects stdout csv_file].
    + split_and!.
      * split; [by intros [? ?]|done].
      * split; [intros _; right; by eexists _, _|done].
      * intros e' out. split.
        -- by intros [= -> <-].
        -- by intros (_ & [= ->] & ->).
      * intros H. apply list_elem_of_singleton in H. done.
    + split_and!; [done| | |done].
      * rewrite Hnone. split; [by left|]. by intros [?|(? & ? & ?)].
      * intros e out. split; [done|]. by intros (_ & ? & _).
  - cbn [effects]. split_and!; [done| | |done].
    + rewrite Hnone. split; [by left|]. by intros [?|(? & ? & ?)].
    + intros e out. split; [done|]. by intros (? & _).
Qed.

(** X6. The percentages the loop prints rise strictly and are never
    negative, whatever the sizes and the lines the file system reports
    and whether the reading ends well or not; a single 100 follows them
    exactly when the reading reaches its end. *)
Theorem loop_percentages_rise_strictly (file : input_file)
    (csv_error : option exn) (enc : encoding) :
  ∃ inloop,
    Sorted Z.lt inloop ∧ Forall (λ p, (0 ≤ p)%Z) inloop
    ∧ ((File_reading_complete ∈ stdout (count_keywords file csv_error enc)
        ∧ progress (stdout (count_keywords file csv_error enc)) = inloop ++ [100%Z])
       ∨ ((File_reading_complete ∉ stdout (count_keywords file csv_error enc))
          ∧ progress (stdout (count_keywords file csv_error enc)) = inloop)).
Proof.
  destruct (path_exists file) eqn:Hex.
  2:{ exists []. unfold count_keywords. rewrite Hex. cbn.
      split_and!; [constructor|constructor|]. right. split; [|done].
      intros H. apply list_elem_of_singleton in H. done. }
  destruct (count_keywords_shape file csv_error enc Hex)
    as (inloop & tail & -> & Hsorted & Htail).
  exists inloop.
  assert (Forall (λ p, (-1 < p)%Z) inloop) as Hpos.
  { apply Sorted_StronglySorted in Hsorted; [|intros ???; lia].
    by apply StronglySorted_inv in Hsorted as [_ ?]. }
  apply Sorted_inv in Hsorted as [Hsorted _].
  split_and!; [done|eapply Forall_impl; [exact Hpos|simpl; lia]|].
  assert (∀ l, progress (Analyzing_file :: map Reading inloop ++ l)
               = inloop ++ progress l) as Hprog.
  { intros l. change (Analyzing_file :: map Reading inloop ++ l)
      with ([Analyzing_file] ++ map Reading inloop ++ l).
    by rewrite !progress_app, progress_readings. }
  assert (File_reading_complete ∉ Analyzing_file :: map Reading inloop) as Hnc.
  { intros [?|H]%elem_of_cons; [done|].
    apply list_elem_of_fmap in H as (? & ? & ?). done. }
  rewrite Hprog.
  change (Analyzing_file :: map Reading inloop ++ tail)
    with ((Analyzing_file :: map Reading inloop) ++ tail).
  destruct Htail as [[-> _]|[(e & -> & _)|[(e & -> & _)|[-> _]]]].
  - right. rewrite app_nil_r. split; [|done].
    intros [H|H]%elem_of_app; [done|]. apply list_elem_of_singleton in H. done.
  - right. rewrite app_nil_r. split; [|done].
    intros [H|H]%elem_of_app; [done|].
    repeat (apply elem_of_cons in H as [H|H]; [done|]). by apply elem_of_nil in H.
  - left. split; [|done]. apply elem_of_app. right. by right; left.
  - left. split; [|done]. apply elem_of_app. right. by right; left.
Qed.

End messages.

(** ** What the report holds *)

Section report_contents.

Implicit Types (file : input_file) (enc : encoding) (csv_error : option exn)
  (counts : gmap pystr Z) (l : list (pystr * Z)).

Lemma counted_inv t :
  counted t = true →
  t ≠ [] ∧ is_number t = false ∧ Forall (λ c, is_word_char c = true) t.
Proof.
  unfold counted, branch_of.
  repeat case_bool_decide; try done.
  destruct (is_number t); [done|].
  destruct (word_pattern_fullmatch t) eqn:Hw; [|done]. intros _.
  split_and!; [done|done|].
  unfold word_pattern_fullmatch in Hw. destruct t as [|c t]; [done|].
  apply Forall_forall. intros x Hx%list_elem_of_In.
  by apply (proj1 (forallb_forall _ _) Hw).
Qed.

Lemma emitted_tokens_elem ls t :
  t ∈ emitted_tokens ls ↔ counted t = true ∧ ∃ line, line ∈ ls ∧ t ∈ tokens line.
Proof.
  unfold emitted_tokens. rewrite emitted_elem, list_elem_of_In, in_concat.
  split.
  - intros [(toks & Hin & Ht) Hc]. split; [done|].
    apply in_map_iff in Hin as (line & <- & Hline).
    exists line. by rewrite !list_elem_of_In.
  - intros [Hc (line & Hline & Ht)]. split; [|done].
    exists (tokens line). rewrite <- !list_elem_of_In. split; [|done].
    apply list_elem_of_In, in_map. by apply list_elem_of_In.
Qed.

(** X7. Every keyword of the report is a token of some line of the input;
    it is not empty, [float] rejects it, and each of its characters is a
    word character. So it holds no comma, double quote, carriage return or
    line feed, the characters for which the CSV writer would quote a
    field, and no space, [#], [=], brace either: each row of the file is
    the keyword, a comma and the count. *)
Theorem report_keywords_are_plain_words (file : input_file)
    (csv_error : option exn) (enc : encoding) (report : list csv_row)
    (k : pystr) (c : Z) :
  csv_file (count_keywords file csv_error enc) = Some report →
  Row k c ∈ report →
  k ≠ [] ∧ is_number k = false
  ∧ Forall (λ ch, is_word_char ch = true
                  ∧ (ch ∉ csv_special) ∧ (ch ∉ line_special) ∧ ch ≠ SPACE) k
  ∧ ∃ line, line ∈ lines file ∧ k ∈ tokens line.
Proof.
  intros Hcsv Hrow.
  apply (report_row_tally file csv_error enc report k c Hcsv) in Hrow as [-> Hpos].
  apply tally_positive_elem, emitted_tokens_elem in Hpos as [Hc Hline].
  apply counted_inv in Hc as (Hne & Hnum & Hword).
  split_and!; [done|done| |done].
  eapply Forall_impl; [exact Hword|]. intros ch Hch.
  split_and!; [done|..].
  - unfold csv_special. intros H.
    repeat (apply elem_of_cons in H as [->|H]; [by vm_compute in Hch|]).
    by apply elem_of_nil in H.
  - unfold line_special. intros H.
    repeat (apply elem_of_cons in H as [->|H]; [by vm_compute in Hch|]).
    by apply elem_of_nil in H.
  - intros ->. by vm_compute in Hch.
Qed.

Lemma report_keywords_are_plain_words_witness :
  csv_file (count_keywords_on scenario_raw None utf_8) = Some scenario_report
  ∧ Row (py "enabled") 1 ∈ scenario_report
  ∧ is_number (py "enabled") = false
  ∧ ∃ line, line ∈ lines (regular_file utf_8 scenario_raw)
            ∧ py "enabled" ∈ tokens line.
Proof.
  assert (csv_file (count_keywords_on scenario_raw None utf_8)
          = Some scenario_report) as H by (vm_compute; reflexivity).
  assert (Row (py "enabled") 1 ∈ scenario_report) as Hrow
    by (by do 3 right; left).
  split; [exact H|]. split; [exact Hrow|].
  destruct (report_keywords_are_plain_words
              (regular_file utf_8 scenario_raw) None utf_8 scenario_report
              (py "enabled") 1 H Hrow) as (_ & Hnum & _ & Hline).
  by split.
Defined.

(** *** The counts add up *)

Lemma sum_Z_perm (l1 l2 : list Z) : l1 ≡ₚ l2 → sum_Z l1 = sum_Z l2.
Proof. induction 1; simpl in *; lia. Qed.

Lemma total_incr counts t :
  sum_Z (map_to_list (counter_incr t counts)).*2
  = (sum_Z (map_to_list counts).*2 + 1)%Z.
Proof.
  unfold counter_incr, counter_get.
  destruct (counts !! t) as [v|] eqn:Hv; simpl.
  - rewrite <- (insert_delete_eq counts).
    rewrite (sum_Z_perm _ ((v + 1)%Z :: (map_to_list (delete t counts)).*2)).
    2:{ rewrite map_to_list_insert by apply lookup_delete_eq. done. }
    rewrite (sum_Z_perm (map_to_list counts).*2
                        (v :: (map_to_list (delete t counts)).*2)).
    2:{ by rewrite <- (map_to_list_delete counts t v Hv). }
    simpl. lia.
  - rewrite (sum_Z_perm _ ((0 + 1)%Z :: (map_to_list counts).*2)).
    2:{ by rewrite map_to_list_insert. }
    simpl. lia.
Qed.

Lemma total_process_tokens counts toks :
  sum_Z (map_to_list (process_tokens counts toks)).*2
  = (sum_Z (map_to_list counts).*2 + Z.of_nat (length (emitted toks)))%Z.
Proof.
  revert counts. induction toks as [|tok toks IH]; intros counts; simpl; [lia|].
  rewrite IH. unfold process_token, counted.
  destruct (branch_of tok); simpl; try lia.
  rewrite total_incr. lia.
Qed.

(** X8. The counts of the report add up to the number of tokens the loop
    counted, and there are at most as many rows as counted tokens: no
    occurrence is lost or counted twice. *)
Theorem report_counts_add_up (file : input_file) (csv_error : option exn)
    (enc : encoding) (report : list csv_row) :
  csv_file (count_keywords file csv_error enc) = Some report →
  report_total report = Z.of_nat (length (emitted_tokens (lines file)))
  ∧ (length report ≤ 1 + length (emitted_tokens (lines file)))%nat.
Proof.
  intros [_ ->]%count_keywords_report.
  set (counts := process_tokens ∅ (concat (map tokens (lines file)))).
  assert (sum_Z (sorted_keywords counts).*2
          = Z.of_nat (length (emitted_tokens (lines file)))) as Hsum.
  { rewrite (sum_Z_perm _ (map_to_list counts).*2).
    2:{ unfold sorted_keywords. by rewrite sorted_by_key_perm. }
    unfold counts. rewrite total_process_tokens, map_to_list_empty.
    unfold emitted_tokens. change (sum_Z ([] : list (pystr * Z)).*2) with 0%Z.
    lia. }
  assert (Forall (λ item, (1 ≤ item.2)%Z) (sorted_keywords counts)) as Hpos.
  { apply Forall_forall. intros [k c] Hin%sorted_keywords_elem.
    apply (counts_tally_lookup counts (emitted_tokens (lines file))) in Hin.
    - simpl. lia.
    - apply (process_tokens_tally ∅ []), counts_tally_empty. }
  split.
  - rewrite <- Hsum. unfold report_total. cbn [map row_count sum_Z foldr].
    rewrite Z.add_0_l. clear.
    induction (sorted_keywords counts) as [|[k c] l IH]; [done|].
    cbn [map fmap list_fmap foldr row_count snd] in *. unfold sum_Z in *.
    simpl in *. by rewrite IH.
  - cbn [length]. rewrite length_map.
    assert (Z.of_nat (length (sorted_keywords counts))
            ≤ sum_Z (sorted_keywords counts).*2)%Z; [|lia].
    clear Hsum. induction Hpos as [|[k c] l Hc _ IH]; [done|].
    cbn [length fmap list_fmap snd] in *. unfold sum_Z in *. simpl in *. lia.
Qed.

Lemma report_counts_add_up_witness :
  csv_file (count_keywords_on scenario_raw None utf_8) = Some scenario_report
  ∧ report_total scenario_report
    = Z.of_nat (length (emitted_tokens (lines (regular_file utf_8 scenario_raw)))).
Proof.
  assert (csv_file (count_keywords_on scenario_raw None utf_8)
          = Some scenario_report) as H by (vm_compute; reflexivity).
  split; [exact H|].
  apply (proj1 (report_counts_add_up
                  (regular_file utf_8 scenario_raw) None utf_8 scenario_report H)).
Defined.

(** *** The order of the rows is fixed by the rows *)

Lemma sorted_rows_unique l1 l2 :
  Sorted row_before l1 → Sorted row_before l2 → l1 ≡ₚ l2 → l1 = l2.
Proof.
  intros H1 H2.
  apply Sorted_StronglySorted in H1; [|intros ???; apply row_before_trans].
  apply Sorted_StronglySorted in H2; [|intros ???; apply row_before_trans].
  revert l2 H2. induction H1 as [|x l1 H1 IH Hx]; intros l2 H2 Hperm.
  - by apply Permutation_nil_l in Hperm.
  - destruct H2 as [|y l2 H2 Hy].
    { by apply Permutation_nil_r in Hperm. }
    assert (x = y) as ->.
    { destruct (decide (x = y)) as [|Hne]; [done|]. exfalso.
      assert (x ∈ y :: l2) as Hxin by (rewrite <- Hperm; by left).
      assert (y ∈ x :: l1) as Hyin by (rewrite Hperm; by left).
      apply elem_of_cons in Hxin as [?|Hxin]; [done|].
      apply elem_of_cons in Hyin as [?|Hyin]; [done|].
      rewrite Forall_forall in Hx, Hy.
      apply (row_before_irrefl x).
      eapply row_before_trans; [by apply Hx|by apply Hy]. }
    f_equal. apply IH; [done|]. by apply Permutation_cons_inv in Hperm.
Qed.

(** X9. The sorting yields the one arrangement of the items in which each
    row has a larger count than the next, or the same count and a smaller
    keyword. So the report does not depend on the order in which the
    counter hands out its items, that is, on the order in which the
    keywords were first met. *)
Theorem report_order_is_canonical (items1 items2 : list (pystr * Z)) :
  NoDup items1.*1 → items1 ≡ₚ items2 →
  sorted_by_key items1 = sorted_by_key items2
  ∧ ∀ l, l ≡ₚ items1 → Sorted row_before l → l = sorted_by_key items1.
Proof.
  intros Hnd Hperm.
  assert (∀ l, l ≡ₚ items1 → Sorted row_before l → l = sorted_by_key items1)
    as Huniq.
  { intros l Hl Hs. apply sorted_rows_unique; [done| |].
    - by apply sorted_by_key_sorted.
    - by rewrite sorted_by_key_perm. }
  split; [|done]. symmetry. apply Huniq.
  - by rewrite sorted_by_key_perm.
  - apply sorted_by_key_sorted. by rewrite <- Hperm.
Qed.

Lemma report_order_is_canonical_witness :
  NoDup [(py "size", 1%Z); (py "name", 2%Z); (py "color", 1%Z)].*1
  ∧ sorted_by_key [(py "size", 1%Z); (py "name", 2%Z); (py "color", 1%Z)]
    = sorted_by_key [(py "name", 2%Z); (py "size", 1%Z); (py "color", 1%Z)].
Proof.
  assert (NoDup [(py "size", 1%Z); (py "name", 2%Z); (py "color", 1%Z)].*1)
    as Hnd by (by apply (bool_decide_unpack _); vm_compute).
  split; [exact Hnd|].
  apply (proj1 (report_order_is_canonical
    [(py "size", 1%Z); (py "name", 2%Z); (py "color", 1%Z)]
    [(py "name", 2%Z); (py "size", 1%Z); (py "color", 1%Z)] Hnd
    (perm_swap _ _ _))).
Defined.

(** *** The order of the lines does not matter *)






End report_contents.

(** ** A byte order mark under the default encoding *)

Section byte_order_mark.

Implicit Types (s cur line : pystr).

(** The characters read before the scan starts go in front of the first
    line. *)
Lemma readlines_scan_prefix cur s :
  readlines_scan cur s
  = match readlines_scan [] s with
    | first :: others => (rev cur ++ first) :: others
    | [] => flush cur []
    end.
Proof.
  revert cur. induction s as [|c s IH]; intros cur; [done|].
  cbn [readlines_scan]. destruct (c =? LF).
  - done.
  - rewrite (IH (c :: cur)), (IH [c]).
    destruct (readlines_scan [] s) as [|first others]; simpl.
    + done.
    + by rewrite <- app_assoc.
Qed.

(** A run that is being read when the scan meets a character that is not
    white space joins the first piece of what follows. *)
Lemma str_split_scan_prefix c s :
  Py_UNICODE_ISSPACE c = false →
  ∃ t ts, str_split_scan [] (c :: s) = t :: ts
          ∧ ∀ cur, str_split_scan cur (c :: s) = (rev cur ++ t) :: ts.
Proof.
  revert c. induction s as [|d s IH]; intros c Hc.
  - exists [c], []. cbn [str_split_scan]. rewrite Hc. split; [done|].
    intros cur. done.
  - cbn [str_split_scan]. rewrite Hc.
    destruct (Py_UNICODE_ISSPACE d) eqn:Hd.
    + exists [c], (str_split_scan [] s). split; [done|]. intros cur. done.
    + destruct (IH d Hd) as (t & ts & _ & Hcur).
      cbn [str_split_scan] in Hcur. rewrite Hd in Hcur.
      exists (c :: t), ts. split.
      * by rewrite (Hcur [c]).
      * intros cur. rewrite (Hcur (c :: cur)). simpl. by rewrite <- app_assoc.
Qed.

Lemma str_split_scan_at_space cur s :
  match s with c :: _ => Py_UNICODE_ISSPACE c = true | [] => True end →
  str_split_scan cur s = flush cur (str_split s).
Proof.
  destruct s as [|c s]; [done|]. intros Hc. unfold str_split.
  cbn [str_split_scan]. by rewrite Hc.
Qed.

(** A character that is neither white space nor one the cleaning acts on
    stays where it is, glued to the token that follows it. *)
Lemma tokens_glued c line :
  Py_UNICODE_ISSPACE c = false →
  c ∉ [HASH; QUOTE; ord "="; ord "{"; ord "}"] →
  ∃ t ts, tokens (c :: line) = (c :: t) :: ts
          ∧ ((t = [] ∧ ts = tokens line) ∨ tokens line = t :: ts).
Proof.
  intros Hsp Hc.
  assert (clean_line (c :: line) = c :: clean_line line) as Hclean.
  { unfold clean_line. rewrite split_hash_0_cons.
    2:{ intros ->. apply Hc. by left. }
    unfold quoted_string_pattern_sub. cbn [quoted_sub_scan].
    destruct (N.eqb_spec c QUOTE) as [->|_].
    { exfalso. apply Hc. by right; left. }
    rewrite !replace_operators_map. cbn [map]. f_equal.
    unfold operator_to_space. rewrite bool_decide_false; [done|].
    intros H. apply Hc. by do 2 right. }
  unfold tokens. rewrite Hclean. unfold str_split at 1.
  cbn [str_split_scan]. rewrite Hsp.
  destruct (clean_line line) as [|d s] eqn:Hs.
  - exists [], []. split; [done|]. left. done.
  - destruct (Py_UNICODE_ISSPACE d) eqn:Hd.
    + rewrite str_split_scan_at_space by done.
      exists [], (str_split (d :: s)). split; [done|]. by left.
    + destruct (str_split_scan_prefix d s Hd) as (t & ts & Ht & Hcur).
      exists t, ts. split; [by rewrite (Hcur [c])|]. by right.
Qed.

(** X11. The default encoding does not skip a byte order mark. On a file
    that starts with the three bytes of the mark, [utf-8] yields the
    character U+FEFF in front of the first line, where [utf-8-sig] yields
    the lines of the rest of the file. The mark is neither white space nor
    a word character: it stays glued to the first token of its line, and
    that token is never counted. *)
Theorem byte_order_mark_spoils_first_token (rest : list Byte.byte) (line : pystr) :
  lines (regular_file utf_8 (BOM_UTF8 ++ rest))
  = match lines (regular_file utf_8 rest) with
    | first :: others => (BOM_CHAR :: first) :: others
    | [] => [[BOM_CHAR]]
    end
  ∧ lines (regular_file utf_8_sig (BOM_UTF8 ++ rest))
    = lines (regular_file utf_8 rest)
  ∧ ∃ t ts, tokens (BOM_CHAR :: line) = (BOM_CHAR :: t) :: ts
            ∧ ((t = [] ∧ ts = tokens line) ∨ tokens line = t :: ts)
            ∧ counted (BOM_CHAR :: t) = false
            ∧ emitted (tokens (BOM_CHAR :: line)) = emitted ts.
Proof.
  split_and!.
  - cbn [lines regular_file decode]. rewrite map_app.
    change (map Byte.to_N BOM_UTF8 ++ map Byte.to_N rest)
      with (0xEF :: 0xBB :: 0xBF :: map Byte.to_N rest).
    change (utf_8_decode (0xEF :: 0xBB :: 0xBF :: map Byte.to_N rest))
      with (BOM_CHAR :: utf_8_decode (map Byte.to_N rest)).
    change (translate_newlines (BOM_CHAR :: utf_8_decode (map Byte.to_N rest)))
      with (BOM_CHAR :: translate_newlines (utf_8_decode (map Byte.to_N rest))).
    unfold readlines.
    change (readlines_scan [] (BOM_CHAR :: ?s)) with (readlines_scan [BOM_CHAR] s).
    by rewrite readlines_scan_prefix.
  - cbn [lines regular_file decode]. rewrite map_app.
    change (map Byte.to_N BOM_UTF8 ++ map Byte.to_N rest)
      with (0xEF :: 0xBB :: 0xBF :: map Byte.to_N rest).
    done.
  - destruct (tokens_glued BOM_CHAR line) as (t & ts & Htok & Hcases).
    { by vm_compute. }
    { compute_done. }
    assert (counted (BOM_CHAR :: t) = false) as Hnot.
    { assert (word_pattern_fullmatch (BOM_CHAR :: t) = false) as Hw.
      { unfold word_pattern_fullmatch. cbn [forallb].
        assert (is_word_char BOM_CHAR = false) as -> by (by vm_compute). done. }
      unfold counted, branch_of. rewrite Hw.
      repeat case_bool_decide; by try destruct (is_number _). }
    exists t, ts. split_and!; [done|done|done|].
    rewrite Htok. unfold emitted. cbn [List.filter]. by rewrite Hnot.
Qed.

End byte_order_mark.

(** ** Plain ASCII files: every byte is counted *)

Section plain_ascii.

Implicit Types (bs : list N) (s cur : pystr) (enc : encoding) (st : loop_state).

Local Open Scope Z_scope.

Lemma round_binary64_one n : 0 < n → round_binary64 n n = Some (2 ^ 52, - 52).
Proof.
  intros Hn. unfold round_binary64.
  destruct (Z.eqb_spec n 0) as [|_]; [lia|].
  assert (floor_log2_ratio n n = 0) as ->.
  { unfold floor_log2_ratio. rewrite Z.sub_diag.
    change (Z.max 0 (- 0)) with 0. change (Z.max 0 0) with 0.
    by rewrite Z.ltb_irrefl. }
  change (Z.max (0 - 52) (- 1074)) with (- 52).
  change (Z.max 0 (- - 52)) with 52. change (Z.max 0 (- 52)) with 0.
  assert (round_half_even (n * 2 ^ 52) (n * 2 ^ 0) = 2 ^ 52) as ->.
  { unfold round_half_even. rewrite Z.pow_0_r, Z.mul_1_r.
    rewrite (Z.mul_comm n (2 ^ 52)), Z.div_mul, Z.mod_mul by lia.
    destruct (Z.compare_spec (2 * 0) n); [lia|done|lia]. }
  assert ((2 ^ 52 * 2 ^ (- 52 + 1074) <? 2 ^ 2098) = true) as -> by (by vm_compute).
  done.
Qed.

(** When all the bytes are read the percentage is 100. *)
Lemma current_percent_of_full (n : N) :
  (0 < n)%N → current_percent_of n n = inr 100.
Proof.
  intros Hn. unfold current_percent_of, int_true_divide.
  destruct (Z.eqb_spec (Z.of_N n) 0) as [|_]; [lia|].
  rewrite round_binary64_one by lia. by vm_compute.
Qed.

Local Close Scope Z_scope.

Lemma last_default_irrelevant {A} (x : A) (l : list A) d d' :
  List.last (x :: l) d = List.last (x :: l) d'.
Proof.
  revert x. induction l as [|y l IH]; intros x; [done|].
  change (List.last (y :: l) d = List.last (y :: l) d'). apply IH.
Qed.

(** The state when the loop has run through all lines: the bytes of all
    lines are counted, and [last_percent] is the last percentage printed,
    which the percentage of the last line does not exceed. *)
Lemma read_loop_last enc total ls st st' :
  read_loop enc total st ls None = (st', None) →
  ∃ inloop,
    printed_so_far st' = printed_so_far st ++ map Reading inloop
    ∧ last_percent st' = List.last inloop (last_percent st)
    ∧ bytes_read st' = bytes_read st + sum_N (map (encode_len enc) ls)
    ∧ (ls ≠ [] →
       ∃ p, current_percent_of (bytes_read st') total = inr p
            ∧ (p ≤ last_percent st')%Z)
    ∧ (last_percent st ≤ last_percent st')%Z.
Proof.
  revert st. induction ls as [|line ls IH]; intros st; cbn [read_loop].
  - intros [= <-]. exists []. cbn [map sum_N foldr List.last].
    rewrite app_nil_r, N.add_0_r. split_and!; [done..| |lia]. done.
  - destruct (loop_body enc total st line) as [e|st1] eqn:Hbody; [done|].
    intros Hloop.
    destruct (IH st1 Hloop) as (inloop & Hout & Hlast & Hbytes & Hp & Hmono).
    apply loop_body_returns in Hbody as (p & Hpct & _ & Hb1 & Hemit).
    assert (bytes_read st' = bytes_read st + sum_N (map (encode_len enc) (line :: ls)))
      as Hbytes'.
    { rewrite Hbytes, Hb1. cbn [map sum_N foldr]. unfold sum_N. lia. }
    assert (∃ q, current_percent_of (bytes_read st') total = inr q
                 ∧ (q ≤ last_percent st')%Z) as Hq.
    { destruct ls as [|l2 ls].
      - cbn [read_loop] in Hloop. injection Hloop as <-.
        exists p. split; [by rewrite Hb1|].
        destruct Hemit as [(_ & -> & _)|(? & -> & _)]; lia.
      - by apply Hp. }
    destruct Hemit as [(Hlt & Hl1 & Hpr)|(Hle & Hl1 & Hpr)].
    + exists (p :: inloop). rewrite Hout, Hpr, <- app_assoc.
      split_and!; [done| |done|done|lia].
      rewrite Hlast, Hl1. destruct inloop as [|x l]; [done|].
      change (List.last (p :: x :: l) (last_percent st))
        with (List.last (x :: l) (last_percent st)).
      apply last_default_irrelevant.
    + exists inloop. rewrite Hout, Hpr.
      split_and!; [done| |done|done|lia].
      by rewrite Hlast, Hl1.
Qed.

Lemma utf_8_decode_ascii bs :
  Forall (λ b, b < 0x80) bs → utf_8_decode bs = bs.
Proof.
  induction 1 as [|b bs Hb _ IH]; [done|].
  cbn [utf_8_decode]. apply N.ltb_lt in Hb. by rewrite Hb, IH.
Qed.

Lemma decode_ascii enc bs :
  enc ≠ utf_8_sig → Forall (λ b, b < 0x80) bs → decode enc bs = bs.
Proof.
  intros Henc Hbs. destruct enc; try done; cbn [decode].
  - by apply utf_8_decode_ascii.
  - induction Hbs as [|b bs Hb _ IH]; [done|].
    cbn [omap list_omap]. unfold cp1252_decode_byte at 1.
    assert ((0x80 <=? b) = false) as -> by (apply N.leb_gt; lia).
    cbn [andb]. by rewrite IH.
Qed.

Lemma translate_newlines_no_CR s : CR ∉ s → translate_newlines s = s.
Proof.
  induction s as [|c s IH]; [done|]. intros [Hc Hs]%not_elem_of_cons.
  cbn [translate_newlines]. destruct (N.eqb_spec c CR) as [|_]; [done|].
  by rewrite IH.
Qed.

Lemma char_width_ascii enc c : enc ≠ utf_8_sig → c < 0x80 → char_width enc c = 1.
Proof.
  intros Henc Hc. destruct enc; try done; unfold char_width.
  - unfold utf_8_width. apply N.ltb_lt in Hc. by rewrite Hc.
  - unfold cp1252_ranges. cbn [UCD.in_ranges].
    assert ((0x0 <=? c) && (c <=? 0x7F) = true) as ->; [|done].
    apply andb_true_iff. rewrite !N.leb_le. lia.
  - assert ((c <? 0x100) = true) as -> by (apply N.ltb_lt; lia). done.
Qed.

(** On a file of ASCII bytes without carriage returns the bytes the loop
    counts are the bytes of the file. *)
Lemma ascii_file_bytes enc (raw : list Byte.byte) :
  enc ≠ utf_8_sig →
  Forall (λ b, Byte.to_N b < 0x80 ∧ Byte.to_N b ≠ CR) raw →
  sum_N (map (encode_len enc) (lines (regular_file enc raw)))
  = getsize (regular_file enc raw).
Proof.
  intros Henc Hraw. cbn [lines getsize regular_file]. unfold readlines.
  assert (Forall (λ b, b < 0x80) (map Byte.to_N raw)) as Hlt.
  { apply Forall_map. eapply Forall_impl; [exact Hraw|]. by intros b [? _]. }
  assert (CR ∉ map Byte.to_N raw) as Hcr.
  { intros (b & Hb & Hin)%list_elem_of_In%in_map_iff.
    apply list_elem_of_In in Hin. rewrite Forall_forall in Hraw.
    by destruct (Hraw b Hin). }
  rewrite decode_ascii, translate_newlines_no_CR by done.
  assert (∀ ls, sum_N (map (encode_len enc) ls)
                = sum_N (map (λ l, sum_N (map (char_width enc) l)) ls)) as ->.
  { intros ls. f_equal. apply map_ext. intros l. unfold encode_len.
    by destruct enc. }
  rewrite readlines_scan_width. cbn [map sum_N foldr]. rewrite N.add_0_l.
  rewrite <- (length_map Byte.to_N raw).
  induction Hlt as [|b bs Hb _ IH]; [done|].
  apply not_elem_of_cons in Hcr as [_ Hcr].
  cbn [map length]. rewrite Nat2N.inj_succ.
  change (sum_N (?x :: ?r)) with (x + sum_N r).
  rewrite IH, char_width_ascii by done. lia.
Qed.

(** X12. On a non-empty file of ASCII bytes without carriage returns, read
    as utf-8, windows-1252 or latin-1, the estimate of the bytes read is
    exact: the bytes counted over all lines are the size of the file. The
    loop therefore reaches 100 at the last line at the latest and prints
    it, and the line printed after the loop repeats it: the output shows
    100 twice. *)
Theorem ascii_file_prints_100_twice (raw : list Byte.byte)
    (csv_error : option exn) (enc : encoding) :
  raw ≠ [] → enc ≠ utf_8_sig →
  Forall (λ b, Byte.to_N b < 0x80 ∧ Byte.to_N b ≠ CR) raw →
  sum_N (map (encode_len enc) (lines (regular_file enc raw)))
  = N.of_nat (length raw)
  ∧ ∃ before,
      progress (stdout (count_keywords_on raw csv_error enc))
      = before ++ [100%Z; 100%Z]
      ∧ Sorted Z.lt (before ++ [100%Z]).
Proof.
  intros Hne Henc Hraw.
  pose proof (ascii_file_bytes enc raw Henc Hraw) as Hbytes.
  split; [exact Hbytes|].
  unfold count_keywords_on.
  set (file := regular_file enc raw) in *.
  set (st0 := {| keyword_counts := ∅; bytes_read := 0; last_percent := (-1)%Z;
                 printed_so_far := [Analyzing_file] |}).
  assert (0 < getsize file) as Hsize.
  { unfold file. cbn [getsize regular_file]. destruct raw; [done|].
    cbn [length]. lia. }
  destruct (read_loop_completes enc (getsize file) (lines file) st0 Hsize)
    as [st Hloop].
  { unfold st0. cbn [bytes_read]. lia. }
  pose proof Hloop as Hspec.
  apply read_loop_spec in Hspec as (inloop & Hout & Hsorted & Hall & _ & _).
  destruct (read_loop_last _ _ _ _ _ Hloop)
    as (inloop' & Hout' & Hlast & Hread & Hp & _).
  assert (inloop' = inloop) as ->.
  { rewrite Hout in Hout'. apply app_inv_head in Hout'.
    clear -Hout'. revert inloop' Hout'.
    induction inloop as [|x l IH]; intros [|y l'] H; try done.
    injection H as -> H. f_equal. by apply IH. }
  unfold st0 in Hlast, Hread, Hsorted. cbn [last_percent bytes_read] in *.
  rewrite N.add_0_l, Hbytes in Hread.
  assert (lines file ≠ []) as Hlines.
  { intros Hnil. rewrite Hnil in Hbytes. cbn [map sum_N foldr] in Hbytes. lia. }
  destruct (Hp Hlines) as (p & Hpct & Hple).
  rewrite Hread, current_percent_of_full in Hpct by done.
  injection Hpct as <-.
  assert (Forall (λ q, (q ≤ 100)%Z) inloop) as Hbound.
  { eapply Forall_impl; [exact Hall|]. intros q (k & _ & Hq).
    rewrite N.add_0_l in Hq.
    destruct (current_percent_of_bounded
      (sum_N (map (encode_len enc) (take k (lines file)))) (getsize file))
      as (q' & Hq' & Hb); [done| |].
    - rewrite <- Hbytes, <- firstn_map. apply sum_N_take_le.
    - assert (q = q') as -> by congruence. lia. }
  apply Sorted_inv in Hsorted as [Hsorted _].
  destruct (list.last inloop) as [top|] eqn:Htop.
  2:{ apply last_None in Htop as ->. cbn [List.last] in Hlast. lia. }
  apply last_Some in Htop as [before ->].
  rewrite List.last_last in Hlast.
  assert (top = 100%Z) as ->.
  { apply Forall_app in Hbound as [_ Hb]. apply Forall_cons in Hb as [Hb _]. lia. }
  exists before. split; [|done].
  rewrite (count_keywords_completes file csv_error enc st); [|done|done|done].
  rewrite Hout, !progress_app, progress_readings.
  change (progress (printed_so_far st0)) with (@nil Z).
  rewrite app_nil_l, <- app_assoc. by destruct csv_error.
Qed.

Lemma ascii_file_prints_100_twice_witness :
  scenario_raw ≠ [] ∧ utf_8 ≠ utf_8_sig
  ∧ Forall (λ b, Byte.to_N b < 0x80 ∧ Byte.to_N b ≠ CR) scenario_raw
  ∧ sum_N (map (encode_len utf_8) (lines (regular_file utf_8 scenario_raw)))
    = N.of_nat (length scenario_raw)
  ∧ ∃ before,
      progress (stdout (count_keywords_on scenario_raw None utf_8))
      = before ++ [100%Z; 100%Z]
      ∧ Sorted Z.lt (before ++ [100%Z]).
Proof.
  assert (scenario_raw ≠ []) as H1 by (intros H; vm_compute in H; discriminate H).
  assert (utf_8 ≠ utf_8_sig) as H2 by (intros H; discriminate H).
  assert (Forall (λ b, Byte.to_N b < 0x80 ∧ Byte.to_N b ≠ CR) scenario_raw) as H3.
  { apply Forall_forall. intros b Hb. vm_compute in Hb.
    repeat (apply elem_of_cons in Hb as [->|Hb]; [by split|]).
    by apply elem_of_nil in Hb. }
  split_and!; [done..| |];
    apply (ascii_file_prints_100_twice scenario_raw None utf_8 H1 H2 H3).
Defined.

End plain_ascii.

(** ** How the tokens of a line compose *)

Section composition.

Implicit Types (a b q s cur : pystr).

Lemma flush_app cur (l1 l2 : list pystr) : flush cur (l1 ++ l2) = flush cur l1 ++ l2.
Proof. by destruct cur. Qed.

(** A white space character ends the run being read: the pieces of the
    text before it and of the text after it are found independently. *)
Lemma str_split_scan_at_white cur a sp b :
  Py_UNICODE_ISSPACE sp = true →
  str_split_scan cur (a ++ sp :: b) = str_split_scan cur a ++ str_split b.
Proof.
  intros Hsp. revert cur. induction a as [|c a IH]; intros cur.
  - cbn [app str_split_scan]. rewrite Hsp. by destruct cur.
  - cbn [app str_split_scan]. destruct (Py_UNICODE_ISSPACE c).
    + by rewrite IH, flush_app.
    + apply IH.
Qed.

(** Where the scan is outside a quote at the end of [a], what follows is
    scanned on its own. *)
Lemma quoted_sub_scan_app_closed (open : option pystr) a s :
  Nat.even (quote_count a + match open with Some _ => 1 | None => 0 end) = true →
  quoted_sub_scan open (a ++ s)
  = quoted_sub_scan open a ++ quoted_sub_scan None s.
Proof.
  revert open. induction a as [|c a IH]; intros open.
  - destruct open; [done|]. intros _. by destruct s.
  - unfold quote_count. cbn [List.filter app].
    destruct open as [buf|]; cbn [quoted_sub_scan];
      destruct (c =? QUOTE); cbn [length]; intros Hev.
    + cbn [app]. f_equal. apply IH. fold (quote_count a).
      rewrite Nat.add_0_r. by rewrite Nat.add_1_r in Hev.
    + by apply IH.
    + apply IH. fold (quote_count a). rewrite Nat.add_1_r.
      by rewrite Nat.add_0_r in Hev.
    + cbn [app]. f_equal. by apply IH.
Qed.

Lemma space_not_special sp :
  Py_UNICODE_ISSPACE sp = true →
  sp ∉ [HASH; QUOTE; ord "="; ord "{"; ord "}"].
Proof.
  intros Hsp H.
  repeat (apply elem_of_cons in H as [->|H]; [by vm_compute in Hsp|]).
  by apply elem_of_nil in H.
Qed.

Lemma clean_line_plain s :
  HASH ∉ s → QUOTE ∉ s → clean_line s = replace_operators s.
Proof.
  intros Hh Hq. unfold clean_line.
  by rewrite split_hash_0_whole, quoted_sub_no_quote.
Qed.

(** X13. White space separates: when the text before a white space
    character holds no [#] and an even number of double quotes, the
    tokens of the line are the tokens of that text followed by the tokens
    of the rest. *)
Theorem tokens_compose_at_space (a b : pystr) (sp : N) :
  Py_UNICODE_ISSPACE sp = true → HASH ∉ a → quotes_closed a →
  clean_line (a ++ sp :: b) = clean_line a ++ sp :: clean_line b
  ∧ tokens (a ++ sp :: b) = tokens a ++ tokens b.
Proof.
  intros Hsp Hhash Hq.
  pose proof (space_not_special sp Hsp) as Hspecial.
  assert (clean_line (a ++ sp :: b) = clean_line a ++ sp :: clean_line b) as Hclean.
  { unfold clean_line, quoted_string_pattern_sub.
    rewrite split_hash_0_app, split_hash_0_cons, (split_hash_0_whole a) by
      (try done; intros ->; apply Hspecial; by left).
    rewrite quoted_sub_scan_app_closed by (by rewrite Nat.add_0_r).
    cbn [quoted_sub_scan].
    destruct (N.eqb_spec sp QUOTE) as [->|_].
    { exfalso. apply Hspecial. by right; left. }
    rewrite !replace_operators_map, map_app. cbn [map]. do 2 f_equal.
    unfold operator_to_space. rewrite bool_decide_false; [done|].
    intros H. apply Hspecial. by do 2 right. }
  split; [done|]. unfold tokens. rewrite Hclean.
  by apply str_split_scan_at_white.
Qed.

Lemma tokens_compose_at_space_witness :
  Py_UNICODE_ISSPACE LF = true ∧ (HASH ∉ py "size = 10")
  ∧ quotes_closed (py "size = 10")
  ∧ tokens (py "size = 10" ++ LF :: py "name = x")
    = tokens (py "size = 10") ++ tokens (py "name = x").
Proof.
  assert (Py_UNICODE_ISSPACE LF = true) as Hsp by (by vm_compute).
  assert (HASH ∉ py "size = 10") as Hh by compute_done.
  assert (quotes_closed (py "size = 10")) as Hq by (by vm_compute).
  split_and!; [done..|].
  apply (proj2 (tokens_compose_at_space (py "size = 10") (py "name = x") LF
                  Hsp Hh Hq)).
Defined.

(** X14. A double quote that is not closed on its line removes nothing:
    the quote stays, and the text after it is cleaned and split like text
    outside a string, so that its words are tokens of the line like any
    other. *)
Theorem unclosed_quote_is_kept (a q : pystr) (sp : N) :
  (QUOTE ∉ a) → (QUOTE ∉ q) → (HASH ∉ a) → (HASH ∉ q) →
  Py_UNICODE_ISSPACE sp = true →
  clean_line (a ++ QUOTE :: q) = replace_operators (a ++ QUOTE :: q)
  ∧ tokens (a ++ QUOTE :: sp :: q) = tokens (a ++ [QUOTE]) ++ tokens q.
Proof.
  intros Hqa Hqq Hha Hhq Hsp.
  pose proof (space_not_special sp Hsp) as Hspecial.
  assert (∀ r, QUOTE ∉ r → HASH ∉ r →
    clean_line (a ++ QUOTE :: r) = replace_operators (a ++ QUOTE :: r)) as Hopen.
  { intros r Hqr Hhr. unfold clean_line.
    rewrite split_hash_0_whole.
    - by rewrite quoted_sub_open.
    - rewrite not_elem_of_app, not_elem_of_cons. done. }
  split; [by apply Hopen|].
  unfold tokens. rewrite Hopen.
  2:{ apply not_elem_of_cons. split; [|done]. intros <-.
      apply Hspecial. by right; left. }
  2:{ apply not_elem_of_cons. split; [|done]. intros <-.
      apply Hspecial. by left. }
  rewrite (Hopen [] ltac:(apply not_elem_of_nil) ltac:(apply not_elem_of_nil)).
  rewrite (clean_line_plain q) by done.
  rewrite !replace_operators_map, !map_app. cbn [map].
  assert (operator_to_space sp = sp) as ->.
  { unfold operator_to_space. rewrite bool_decide_false; [done|].
    intros H. apply Hspecial. by do 2 right. }
  unfold str_split.
  rewrite (cons_middle (operator_to_space QUOTE)), app_assoc.
  by rewrite (str_split_scan_at_white [] _ sp _ Hsp).
Qed.

Lemma unclosed_quote_is_kept_witness :
  (QUOTE ∉ py "name = ") ∧ (QUOTE ∉ py "Test") ∧ (HASH ∉ py "name = ")
  ∧ (HASH ∉ py "Test") ∧ Py_UNICODE_ISSPACE SPACE = true
  ∧ tokens (py "name = " ++ QUOTE :: SPACE :: py "Test")
    = tokens (py "name = " ++ [QUOTE]) ++ tokens (py "Test").
Proof.
  assert (QUOTE ∉ py "name = ") as H1 by compute_done.
  assert (QUOTE ∉ py "Test") as H2 by compute_done.
  assert (HASH ∉ py "name = ") as H3 by compute_done.
  assert (HASH ∉ py "Test") as H4 by compute_done.
  assert (Py_UNICODE_ISSPACE SPACE = true) as H5 by (by vm_compute).
  split_and!; [done..|].
  apply (proj2 (unclosed_quote_is_kept (py "name = ") (py "Test") SPACE
                  H1 H2 H3 H4 H5)).
Defined.

End composition.
